(** * The plugin execution bridge of the child process

    A shallow embedding of [packages/server/lib/plugins/child/run_plugins.js]:
    the event registry with its id counter, the task merge rule, the
    promise-wrapped invocation, the task sub-dispatch and the guards on
    configuration options that were migrated away in 10.X.

    JavaScript objects are modelled by their own data properties; members
    inherited from [Object.prototype] are outside the model.  Numbers are the
    integers ([Z]); ids are naturals ([N]), exact as long as the counter stays
    below 2^53. *)

From Stdlib Require Import ZArith NArith Ascii String DecimalString.
From stdpp Require Import base option list strings gmap fin_maps.

Local Open Scope string_scope.
Set Warnings "-register-all".

(** ** JavaScript values *)

(** Callables are opaque: a placeholder [() => {}] or a function supplied by
    the user's setup routine, known by an index. *)
Inductive fn : Type :=
| Noop
| UserFn (id : nat).

Inductive value : Type :=
| VUndefined
| VNull
| VBool (b : bool)
| VNum (n : Z)
| VStr (s : string)
| VFun (f : fn)
| VArr (elems : list value)
| VObj (props : list (string * value)).

#[global] Instance fn_eq_dec : EqDecision fn.
Proof. solve_decision. Defined.

(** [if (v)], [v && ...], [v || ...] *)
Definition truthy (v : value) : bool :=
  match v with
  | VUndefined | VNull => false
  | VBool b => b
  | VNum n => negb (n =? 0)%Z
  | VStr s => negb (bool_decide (s = ""))
  | VFun _ | VArr _ | VObj _ => true
  end.

(** [v === undefined] *)
Definition is_undefined (v : value) : bool :=
  match v with VUndefined => true | _ => false end.

(** [_.isFunction(v)] *)
Definition isFunction (v : value) : bool :=
  match v with VFun _ => true | _ => false end.

(** [typeof v] is ["object"] or ["function"] and [v] is not [null] *)
Definition is_object (v : value) : bool :=
  match v with VFun _ | VArr _ | VObj _ => true | _ => false end.

(** *** Property lists

    A plain object keeps its own properties in insertion order; the first
    binding of a key is the live one. *)

Fixpoint own_lookup (k : string) (ps : list (string * value)) : option value :=
  match ps with
  | [] => None
  | (k', v) :: ps' => if decide (k = k') then Some v else own_lookup k ps'
  end.

(** [o[k] = v] on a plain object: an existing key keeps its place, a new key
    goes last. *)
Fixpoint own_set (k : string) (v : value) (ps : list (string * value))
  : list (string * value) :=
  match ps with
  | [] => [(k, v)]
  | (k', v') :: ps' =>
      if decide (k = k') then (k, v) :: ps' else (k', v') :: own_set k v ps'
  end.

Definition own_delete (k : string) (ps : list (string * value))
  : list (string * value) :=
  filter (λ p, p.1 ≠ k) ps.

(** Decimal spelling of an array index. *)
Definition index_key (i : nat) : string := NilZero.string_of_uint (Nat.to_uint i).

(** The index a property key denotes, when it is the canonical spelling of a
    natural number. *)
Definition array_index (k : string) : option nat :=
  match NilZero.uint_of_string k with
  | Some u => let i := Nat.of_uint u in
              if decide (index_key i = k) then Some i else None
  | None => None
  end.

(** [v[k]] for a value that is neither [null] nor [undefined].  Strings and
    functions have no own property holding a callable, and their own
    [length]/[name] are never looked at by the bridge, so they read as
    [undefined]. *)
Definition get_prop (v : value) (k : string) : value :=
  match v with
  | VObj ps => default VUndefined (own_lookup k ps)
  | VArr l =>
      if decide (k = "length") then VNum (Z.of_nat (length l))
      else match array_index k with
           | Some i => nth i l VUndefined
           | None => VUndefined
           end
  | _ => VUndefined
  end.

(** Own enumerable entries, as [_.keys] and [_.extend] walk them: the
    properties of a plain object, the elements of an array, the characters of
    a string, nothing for any other value. *)
Definition entries (v : value) : list (string * value) :=
  match v with
  | VObj ps => ps
  | VArr l => imap (λ i x, (index_key i, x)) l
  | VStr s => imap (λ i c, (index_key i, VStr (String c ""))) (list_ascii_of_string s)
  | _ => []
  end.

(** [_.keys(v)] *)
Definition lodash_keys (v : value) : list string := (entries v).*1.

(** [_.intersection(xs, ys)]: the values of [xs] that occur in [ys], once
    each, in the order of [xs]. *)
Definition lodash_intersection (xs ys : list string) : list string :=
  remove_dups (filter (λ k, k ∈ ys) xs).

(** [_.extend(target, source)] assigns every entry of [source] onto [target]
    and returns [target].  The bridge only calls it with the handler of the
    existing ["task"] registration as target; a target that is not a plain
    object comes back as it is. *)
Definition lodash_extend (target source : value) : value :=
  match target with
  | VObj ps => VObj (foldl (λ acc p, own_set p.1 p.2 acc) ps (entries source))
  | _ => target
  end.

(** *** Paths of [_.get]

    [_.get(object, path)] with a string [path] that is not itself a key of
    [object] cuts the path into segments.  For a path without ['['] and [']']
    the segments are the pieces between the dots; bracket syntax is not
    covered here. *)
Fixpoint split_dots (s : string) : list string :=
  match s with
  | EmptyString => [""]
  | String c r =>
      if decide (c = "."%char) then "" :: split_dots r
      else match split_dots r with
           | x :: xs => String c x :: xs
           | [] => [String c ""]
           end
  end.

(** [baseGet]: follow the segments while the current value is neither
    [null] nor [undefined]; the result is [undefined] unless every segment
    was consumed. *)
Fixpoint get_path (v : value) (segs : list string) : value :=
  match segs with
  | [] => v
  | k :: segs' =>
      match v with
      | VUndefined | VNull => VUndefined
      | _ => get_path (get_prop v k) segs'
      end
  end.

(** A task name free of the characters [_.get] gives a meaning to. *)
Definition plain_name (s : string) : Prop :=
  ∀ c, c ∈ list_ascii_of_string s → c ≠ "."%char ∧ c ≠ "["%char ∧ c ≠ "]"%char.

(** [String(v)], as a template literal or a property key spells a value.
    Integers are spelled in decimal (what JavaScript does below 10^21);
    the source text of a user function is whatever [src] says. *)
Definition string_of_Z (n : Z) : string :=
  NilZero.string_of_int (Z.to_int n).

Fixpoint js_string_of (src : nat → string) (v : value) : string :=
  match v with
  | VUndefined => "undefined"
  | VNull => "null"
  | VBool true => "true"
  | VBool false => "false"
  | VNum n => string_of_Z n
  | VStr s => s
  | VFun Noop => "() => {}"
  | VFun (UserFn i) => src i
  | VArr l =>
      (fix join (l : list value) : string :=
         match l with
         | [] => ""
         | x :: r =>
             let sx := match x with
                       | VUndefined | VNull => ""
                       | _ => js_string_of src x
                       end in
             match r with [] => sx | _ => sx ++ "," ++ join r end
         end) l
  | VObj _ => "[object Object]"
  end.

(** ** Exceptions and settled promises *)

(** What a [throw] or a rejection carries: one of the errors built by
    [require('@packages/errors').getError], a [TypeError] of the engine, or
    any value thrown by user code. *)
Inductive exn : Type :=
| PLUGINS_INVALID_EVENT_NAME_ERROR (requiredFile event : string) (userEvents error : value)
| CONFIG_FILE_SETUP_NODE_EVENTS_ERROR (requiredFile : string) (testingType : value) (cause : exn)
| SETUP_NODE_EVENTS_DO_NOT_SUPPORT_DEV_SERVER (requiredFile : string)
| MIGRATED_OPTION_INVALID (key : string)
| TypeError (message : string)
| Thrown (v : value).

Inductive result (A : Type) : Type :=
| Ok (a : A)
| Throw (e : exn).
Arguments Ok {A} a.
Arguments Throw {A} e.

#[global] Instance result_bind : MBind result :=
  λ A B k r, match r with Ok a => k a | Throw e => Throw e end.

#[global] Instance result_ret : MRet result := λ A a, Ok a.

#[global] Instance result_fmap : FMap result :=
  λ A B f r, match r with Ok a => Ok (f a) | Throw e => Throw e end.

(** What [Promise.try(() => f(...))] settles to: a synchronous [throw] and a
    rejected promise are the same rejection, and a hung callee never
    settles. *)
Inductive settle : Type :=
| Fulfilled (v : value)
| Rejected (e : exn)
| Pending.

(** ** Configuration objects and the guards on migrated options *)

(** An object that can carry setter traps: [g_setters] maps a trapped key to
    the key path its setter reports.  A trapped key has no getter, so it reads
    as [undefined]. *)
Record guarded : Type := Guarded {
  g_value : value;
  g_setters : gmap string string
}.

(** The configuration object: its fields (the testing-type sub-objects can
    be trapped themselves) and the traps on its own keys. *)
Record config : Type := Config {
  c_fields : gmap string guarded;
  c_setters : gmap string string
}.

Definition plain (v : value) : guarded := Guarded v ∅.

(** [options[k]] *)
Definition config_get (options : config) (k : string) : guarded :=
  match c_setters options !! k with
  | Some _ => plain VUndefined
  | None => default (plain VUndefined) (c_fields options !! k)
  end.

(** [sub[k]] on a field of the configuration; the source reads it only
    behind a truthiness check of [sub]. *)
Definition guarded_get (sub : guarded) (k : string) : value :=
  match g_setters sub !! k with
  | Some _ => VUndefined
  | None => get_prop (g_value sub) k
  end.

(**
<<
const optionsNonValidFor10Anywhere = ['integrationFolder', 'componentFolder', 'pluginsFile']
const optionsNonValidFor10Global = ['baseUrl', 'supportFile']
>> *)
Definition optionsNonValidFor10Anywhere : list string :=
  ["integrationFolder"; "componentFolder"; "pluginsFile"].

Definition optionsNonValidFor10Global : list string :=
  ["baseUrl"; "supportFile"].

Definition testingTypes : list string := ["component"; "e2e"].

(** [throwInvalidOptionError(key)] *)
Definition throwInvalidOptionError {A : Type} (key : string) : result A :=
  Throw (MIGRATED_OPTION_INVALID key).

(** [options[k] = v]: a trapped key runs its setter, which is
    [throwInvalidOptionError] bound to the key path. *)
Definition config_assign (options : config) (k : string) (v : guarded) : result config :=
  match c_setters options !! k with
  | Some keyForError => throwInvalidOptionError keyForError
  | None => Ok (Config (<[k := v]> (c_fields options)) (c_setters options))
  end.

(** [options[testingType][k] = v].  Only writes to plain objects are
    recorded; a write to another kind of object leaves the model as it is. *)
Definition guarded_assign (sub : guarded) (k : string) (v : value) : result guarded :=
  match g_setters sub !! k with
  | Some keyForError => throwInvalidOptionError keyForError
  | None =>
      match g_value sub with
      | VUndefined | VNull => Throw (TypeError "Cannot set properties of undefined")
      | VObj ps => Ok (Guarded (VObj (own_set k v ps)) (g_setters sub))
      | _ => Ok sub
      end
  end.

Definition config_assign_in (options : config) (testingType k : string) (v : value)
  : result config :=
  sub ← guarded_assign (config_get options testingType) k v;
  Ok (Config (<[testingType := sub]> (c_fields options)) (c_setters options)).

(** [setInvalidPropSetterWarning(opts, key)] on the configuration itself:
    [Object.defineProperty] turns [key] into an accessor with a setter only,
    so a data value it had is gone.  (On a configuration without accessors
    each key is defined once by [wrapNonMigratedOptions]; defining an
    accessor again, which throws when the first one is not configurable, is
    not modelled.) *)
Definition setInvalidPropSetterWarning (opts : config) (key : string) : config :=
  Config (delete key (c_fields opts)) (<[key := key]> (c_setters opts)).

(** A value once one of its keys became an accessor: a plain object no
    longer has a data value under it. *)
Definition without_own (key : string) (v : value) : value :=
  match v with
  | VObj ps => VObj (own_delete key ps)
  | v => v
  end.

(** [setInvalidPropSetterWarning(opts, key, keyForError)] on a testing-type
    sub-object; [Object.defineProperty] throws on a non-object. *)
Definition setInvalidPropSetterWarning_in (opts : guarded) (key keyForError : string)
  : result guarded :=
  if is_object (g_value opts) then
    Ok (Guarded (without_own key (g_value opts)) (<[key := keyForError]> (g_setters opts)))
  else Throw (TypeError "Object.defineProperty called on non-object").

(** [xs.forEach(f)] where [f] may throw *)
Fixpoint forEach {A S : Type} (xs : list A) (f : A → S → result S) (s : S) : result S :=
  match xs with
  | [] => Ok s
  | x :: xs' => s' ← f x s; forEach xs' f s'
  end.

(**
<<
testingTypes.forEach((testingType) => {
  options[testingType] = options[testingType] || {}
  setInvalidPropSetterWarning(options[testingType], key, `${testingType}.${key}`)
})
>> *)
Definition wrap_testingType (key testingType : string) (options : config) : result config :=
  let cur := config_get options testingType in
  let sub := if truthy (g_value cur) then cur else plain (VObj []) in
  options ← config_assign options testingType sub;
  sub' ← setInvalidPropSetterWarning_in (config_get options testingType) key
           (testingType ++ "." ++ key);
  Ok (Config (<[testingType := sub']> (c_fields options)) (c_setters options)).

Definition wrapNonMigratedOptions (options : config) : result config :=
  options ← forEach optionsNonValidFor10Global
              (λ key options, Ok (setInvalidPropSetterWarning options key)) options;
  forEach optionsNonValidFor10Anywhere
    (λ key options,
       forEach testingTypes (wrap_testingType key)
         (setInvalidPropSetterWarning options key))
    options.

(**
<<
if (options[testingType] && options[testingType][key]) {
  throwInvalidOptionError(`${testingType}.${key}`)
}
>> *)
Definition validate_testingType (key testingType : string) (options : config)
  : result config :=
  let sub := config_get options testingType in
  if truthy (g_value sub) && truthy (guarded_get sub key)
  then throwInvalidOptionError (testingType ++ "." ++ key)
  else Ok options.

Definition validate_key (key : string) (options : config) : result config :=
  if truthy (g_value (config_get options key))
  then throwInvalidOptionError key
  else Ok options.

(** [validateNonMigratedOptions(options)]: read-only, so the configuration
    comes back as it went in when nothing is thrown. *)
Definition validateNonMigratedOptions (options : config) : result config :=
  options ← forEach optionsNonValidFor10Global validate_key options;
  forEach optionsNonValidFor10Anywhere
    (λ key options,
       options ← validate_key key options;
       forEach testingTypes (validate_testingType key) options)
    options.

(** What the guards amount to: a write to [k] on the configuration, or to
    [k] on its [testingType] field, runs a setter that reports that path. *)
Definition trapped (options : config) (k : string) : Prop :=
  c_setters options !! k = Some k.

Definition trapped_in (options : config) (testingType k : string) : Prop :=
  c_setters options !! testingType = None
  ∧ ∃ sub, c_fields options !! testingType = Some sub
           ∧ is_object (g_value sub) = true
           ∧ g_setters sub !! k = Some (testingType ++ "." ++ k).

(** How a configuration [s] relates to the one [wrapNonMigratedOptions]
    started from: a key that was left alone, a testing-type field whose
    property [k] reads as before, a testing-type field that is not there
    (yet), and one that was created empty and carries nothing but traps. *)
Definition kept (options s : config) (k : string) : Prop :=
  c_fields s !! k = c_fields options !! k ∧ c_setters s !! k = c_setters options !! k.

Definition kept_in (options s : config) (testingType k : string) : Prop :=
  guarded_get (config_get s testingType) k = guarded_get (config_get options testingType) k.

Definition absent (s : config) (testingType : string) : Prop :=
  truthy (g_value (config_get s testingType)) = false.

Definition created_empty (s : config) (testingType : string) : Prop :=
  c_setters s !! testingType = None
  ∧ ∃ sub, c_fields s !! testingType = Some sub
           ∧ g_value sub = VObj []
           ∧ ∀ k, is_Some (g_setters sub !! k) → k ∈ optionsNonValidFor10Anywhere.

(** The configurations the setup routine can turn [wrapped] into by writes
    that do not throw: to a key of the configuration other than the two
    testing-type fields themselves, or to a property of one of its fields. *)
Inductive after_writes (wrapped : config) : config → Prop :=
| after_none : after_writes wrapped wrapped
| after_assign s k v s' :
    after_writes wrapped s → k ∉ testingTypes →
    config_assign s k v = Ok s' → after_writes wrapped s'
| after_assign_in s tt k v s' :
    after_writes wrapped s →
    config_assign_in s tt k v = Ok s' → after_writes wrapped s'.

(** A configuration on which the guards can be installed: neither
    testing-type key is trapped already, and each holds an object or
    something falsy. *)
Definition ready (s : config) : Prop :=
  ∀ tt, tt ∈ testingTypes →
    c_setters s !! tt = None
    ∧ (truthy (g_value (config_get s tt)) = false
       ∨ is_object (g_value (config_get s tt)) = true).

(** ** The registry *)

(** [{ event, handler }], the value kept under an id *)
Record Registration : Type := mkRegistration {
  event : string;
  handler : value
}.

(** What [validateEvent(event, handler, config)] answers *)
Record validation : Type := mkValidation {
  isValid : bool;
  userEvents : value;
  error : value
}.

(** What the setup routine resolves with: some value, or a configuration
    object (usually the one it was given). *)
Inductive returned : Type :=
| ReturnedValue (v : value)
| ReturnedConfig (c : config).

(** Messages on the channel to the parent process *)
Inductive message : Type :=
| Send (name : string) (args : list value)
| SendReply (setupConfig : returned) (registrations : list (string * N)) (requires : value).

(** The fields of a [RunPlugins] instance.  [ipc] holds the messages sent so
    far and [warnings] the calls of [errors.warning('DUPLICATE_TASK_KEY', _)],
    oldest first. *)
Record RunPlugins : Type := mkRunPlugins {
  requiredFile : string;
  eventIdCount : N;
  registrations : list (string * N);
  registeredEventsById : gmap N Registration;
  registeredEventsByName : gmap string N;
  ipc : list message;
  warnings : list (list string)
}.

(** [new RunPlugins(ipc, projectRoot, requiredFile)] *)
Definition constructor (requiredFile : string) : RunPlugins :=
  mkRunPlugins requiredFile 0 [] ∅ ∅ [] [].

Definition ipc_send (m : message) (this : RunPlugins) : RunPlugins :=
  mkRunPlugins (requiredFile this) (eventIdCount this) (registrations this)
    (registeredEventsById this) (registeredEventsByName this)
    (ipc this ++ [m]) (warnings this).

Definition warning (duplicates : list string) (this : RunPlugins) : RunPlugins :=
  mkRunPlugins (requiredFile this) (eventIdCount this) (registrations this)
    (registeredEventsById this) (registeredEventsByName this)
    (ipc this) (warnings this ++ [duplicates]).

Definition UNDEFINED_SERIALIZED : string := "__cypress_undefined__".

(** An id read back from [registeredEventsByName] and used as a condition:
    a missing entry and the id 0 are both falsy. *)
Definition truthy_id (o : option N) : option N :=
  match o with
  | Some id => if decide (id = 0%N) then None else Some id
  | None => None
  end.

(**
<<
taskMerge (target, events) {
  const duplicates = _.intersection(_.keys(target), _.keys(events))
  if (duplicates.length) {
    require('@packages/errors').warning('DUPLICATE_TASK_KEY', duplicates)
  }
  return _.extend(target, events)
}
>> *)
Definition taskMerge (target events : value) (this : RunPlugins) : RunPlugins * value :=
  let duplicates := lodash_intersection (lodash_keys target) (lodash_keys events) in
  let this := match duplicates with
              | [] => this
              | _ => warning duplicates this
              end in
  (this, lodash_extend target events).

Section Bridge.

(** The collaborators that live in other modules. *)
Variable validateEvent : string → value → config → validation.
Variable serializeError : exn → value.
Variable getDefaultPreprocessor : config → value.
Variable nonNodeRequires : value.

(** The behaviour and the source text of the user's functions. *)
Variable user_call : nat → list value → settle.
Variable user_source : nat → string.

(** [f(...args)] *)
Definition call (f : fn) (args : list value) : settle :=
  match f with
  | Noop => Fulfilled VUndefined
  | UserFn i => user_call i args
  end.

Definition send_error (err : exn) (this : RunPlugins) : RunPlugins :=
  ipc_send (Send "setupTestingType:error" [serializeError err]) this.

(** The callback handed to the setup routine (lines 64-108). *)
Definition registerChildEvent (initialConfig : config)
    (event : string) (handler : value) (this : RunPlugins) : result RunPlugins :=
  let v := validateEvent event handler initialConfig in
  if negb (isValid v) then
    let err :=
      if truthy (userEvents v)
      then PLUGINS_INVALID_EVENT_NAME_ERROR (requiredFile this) event (userEvents v) (error v)
      else CONFIG_FILE_SETUP_NODE_EVENTS_ERROR (requiredFile this)
             (g_value (config_get initialConfig "testingType")) (Thrown (error v)) in
    Ok (send_error err this)
  else if bool_decide (event = "dev-server:start")
          && bool_decide (is_Some (truthy_id (registeredEventsByName this !! event))) then
    Ok (send_error (SETUP_NODE_EVENTS_DO_NOT_SUPPORT_DEV_SERVER (requiredFile this)) this)
  else
    match (if decide (event = "task")
           then truthy_id (registeredEventsByName this !! event) else None) with
    | Some existingEventId =>
        match registeredEventsById this !! existingEventId with
        | None => Throw (TypeError "Cannot read properties of undefined (reading 'handler')")
        | Some (mkRegistration _ target) =>
            let '(this, handler) := taskMerge target handler this in
            Ok (mkRunPlugins (requiredFile this) (eventIdCount this) (registrations this)
                  (<[existingEventId := mkRegistration event handler]>
                     (registeredEventsById this))
                  (registeredEventsByName this) (ipc this) (warnings this))
        end
    | None =>
        let eventId := eventIdCount this in
        Ok (mkRunPlugins (requiredFile this) (eventId + 1)
              (registrations this ++ [(event, eventId)])
              (<[eventId := mkRegistration event handler]> (registeredEventsById this))
              (<[event := eventId]> (registeredEventsByName this))
              (ipc this) (warnings this))
    end.

(** *** Setup (lines 59-148) *)

(** The setup routine as the bridge sees it: the registration calls it
    makes, in order, and how its (possibly deferred) result settles.  The
    callback never hands anything back, so the calls do not depend on the
    registry. *)
Inductive setup_outcome : Type :=
| Resolves (modifiedCfg : returned)
| Rejects (err : exn)
| NeverSettles.

Record setup_routine : Type := mkSetup {
  on_calls : list (string * value);
  outcome : setup_outcome
}.

(** The calls of the routine, one after the other.  A call that throws
    ends the routine with that exception; the registry stays as the calls
    before it left it. *)
Fixpoint run_calls (initialConfig : config) (calls : list (string * value))
    (this : RunPlugins) : RunPlugins * option exn :=
  match calls with
  | [] => (this, None)
  | c :: calls' =>
      match registerChildEvent initialConfig c.1 c.2 this with
      | Ok this' => run_calls initialConfig calls' this'
      | Throw err => (this, Some err)
      end
  end.

(** [err.isCypressErr]; reading it off [null] or [undefined] throws. *)
Definition isCypressErr (err : exn) : option bool :=
  match err with
  | TypeError _ => Some false
  | Thrown VUndefined | Thrown VNull => None
  | Thrown v => Some (truthy (get_prop v "isCypressErr"))
  | _ => Some true
  end.

(** The [.catch] at the end of the chain. *)
Definition load_catch (initialConfig : config) (err : exn) (this : RunPlugins)
  : RunPlugins :=
  match isCypressErr err with
  | None => this
  | Some true => send_error err this
  | Some false =>
      send_error
        (CONFIG_FILE_SETUP_NODE_EVENTS_ERROR (requiredFile this)
           (g_value (config_get initialConfig "testingType")) err)
        this
  end.

Definition returned_truthy (r : returned) : bool :=
  match r with
  | ReturnedValue v => truthy v
  | ReturnedConfig _ => true
  end.

(** A returned value read as a configuration object: a plain object has
    its properties, anything else has none of the keys that are looked at. *)
Definition returned_config (r : returned) : config :=
  match r with
  | ReturnedConfig c => c
  | ReturnedValue (VObj ps) => Config (plain <$> list_to_map ps) ∅
  | ReturnedValue _ => Config ∅ ∅
  end.

(** The [.tap] step: a default preprocessor unless one was registered. *)
Definition load_tap (initialConfig : config) (this : RunPlugins) : result RunPlugins :=
  match truthy_id (registeredEventsByName this !! "file:preprocessor") with
  | Some _ => Ok this
  | None => registerChildEvent initialConfig "file:preprocessor"
              (getDefaultPreprocessor initialConfig) this
  end.

(** The [.then] step: validate what the routine returned and reply. *)
Definition load_then (modifiedCfg : returned) (this : RunPlugins) : result RunPlugins :=
  _ ← (if returned_truthy modifiedCfg
       then validateNonMigratedOptions (returned_config modifiedCfg)
       else Ok (returned_config modifiedCfg));
  Ok (ipc_send (SendReply modifiedCfg (registrations this) nonNodeRequires) this).

(** The promise chain of [load], entered with the wrapped configuration. *)
Definition load_chain (wrapped : config) (setupNodeEvents : setup_routine)
    (this : RunPlugins) : RunPlugins :=
  match run_calls wrapped (on_calls setupNodeEvents) this with
  | (this, Some err) => load_catch wrapped err this
  | (this, None) =>
      match outcome setupNodeEvents with
      | NeverSettles => this
      | Rejects err => load_catch wrapped err this
      | Resolves modifiedCfg =>
          match load_tap wrapped this with
          | Throw err => load_catch wrapped err this
          | Ok this =>
              match load_then modifiedCfg this with
              | Throw err => load_catch wrapped err this
              | Ok this' => this'
              end
          end
      end
  end.

(** The state in which the setup routine is entered: the two events of
    the parent/child protocol are registered first. *)
Definition load_start (initialConfig : config) (this : RunPlugins) : result RunPlugins :=
  this ← registerChildEvent initialConfig "_get:task:body" (VFun Noop) this;
  registerChildEvent initialConfig "_get:task:keys" (VFun Noop) this.

Definition load (initialConfig : config) (setupNodeEvents : setup_routine)
    (this : RunPlugins) : result RunPlugins :=
  this ← load_start initialConfig this;
  Ok match wrapNonMigratedOptions initialConfig with
     | Throw err => load_catch initialConfig err this
     | Ok wrapped => load_chain wrapped setupNodeEvents this
     end.

(** *** Dispatch (lines 40-44 and 150-246) *)

Record ids : Type := mkIds {
  eventId : N;
  invocationId : string
}.

(**
<<
invoke = (eventId, args = []) => {
const event = this.registeredEventsById[eventId]
return event.handler(...args)
}
>> *)
Definition invoke (this : RunPlugins) (eventId : N) (args : list value) : settle :=
  match registeredEventsById this !! eventId with
  | None => Rejected (TypeError "Cannot read properties of undefined (reading 'handler')")
  | Some (mkRegistration _ (VFun f)) => call f args
  | Some _ => Rejected (TypeError "event.handler is not a function")
  end.

(** [`promise:fulfilled:${ids.invocationId}`] *)
Definition fulfilled_channel (i : ids) : string :=
  "promise:fulfilled:" ++ invocationId i.

(** The method of the class (lines 179-194). *)
Definition wrapChildPromise (invoke : N → list value → settle)
    (i : ids) (args : list value) (this : RunPlugins) : RunPlugins :=
  match invoke (eventId i) args with
  | Fulfilled value =>
      let value := if is_undefined value then VStr UNDEFINED_SERIALIZED else value in
      ipc_send (Send (fulfilled_channel i) [VNull; value]) this
  | Rejected err => ipc_send (Send (fulfilled_channel i) [serializeError err]) this
  | Pending => this
  end.

(** Modelled from the spec: [util.wrapChildPromise(ipc, invoke, ids, args)]
    of [lib/plugins/util.js], which is not among the sources.  Section 4.3:
    invoke the target, await the result; if the resolved value is
    undefined, substitute the undefined-sentinel; report
    [{invocationId, error: null, value}] on success or
    [{invocationId, error: serialized, value: undefined}] on rejection. *)
Definition util_wrapChildPromise (invoke : N → list value → settle)
    (i : ids) (args : list value) (this : RunPlugins) : RunPlugins :=
  match invoke (eventId i) args with
  | Fulfilled VUndefined =>
      ipc_send (Send (fulfilled_channel i) [VNull; VStr UNDEFINED_SERIALIZED]) this
  | Fulfilled value => ipc_send (Send (fulfilled_channel i) [VNull; value]) this
  | Rejected err => ipc_send (Send (fulfilled_channel i) [serializeError err]) this
  | Pending => this
  end.

(** [_.find(this.registeredEventsById, { event })]: the registration under
    the least id whose event is [event]. *)
Definition lodash_find (ev : string) (byId : gmap N Registration) : option Registration :=
  snd <$>
    foldr (λ kr acc,
             match acc with
             | Some kr' => if (kr.1 <? kr'.1)%N then Some kr else acc
             | None => Some kr
             end)
      None
      (filter (λ kr : N * Registration, event kr.2 = ev) (map_to_list byId)).

Definition find_task_handler (this : RunPlugins) : result value :=
  match lodash_find "task" (registeredEventsById this) with
  | None => Throw (TypeError "Cannot read properties of undefined (reading 'handler')")
  | Some r => Ok (handler r)
  end.

(** Lines 196-206. *)
Definition taskGetBody (i : ids) (args : list value) (this : RunPlugins)
  : result RunPlugins :=
  let event := nth 0 args VUndefined in
  taskEvent ← find_task_handler this;
  let invoke (_ : N) (_ : list value) :=
    match taskEvent with
    | VUndefined | VNull =>
        Rejected (TypeError "Cannot read properties of undefined")
    | _ =>
        let fn := get_prop taskEvent (js_string_of user_source event) in
        Fulfilled (VStr (if isFunction fn then js_string_of user_source fn else ""))
    end in
  Ok (util_wrapChildPromise invoke i [] this).

(** Lines 208-213. *)
Definition taskGetKeys (i : ids) (this : RunPlugins) : result RunPlugins :=
  taskEvent ← find_task_handler this;
  let invoke (_ : N) (_ : list value) :=
    Fulfilled (VArr (VStr <$> lodash_keys taskEvent)) in
  Ok (util_wrapChildPromise invoke i [] this).

(** [_.get(this.registeredEventsById, `${eventId}.handler.${task}`)]: the
    path is not a key of the registry, so it is cut at its dots; after the
    id and ["handler"] come the segments of the task name. *)
Definition get_task_handler (this : RunPlugins) (eventId : N) (task : string) : value :=
  match registeredEventsById this !! eventId with
  | None => VUndefined
  | Some r => get_path (handler r) (split_dots task)
  end.

(** [if (arg && arg.__cypress_task_no_argument__) arg = undefined] *)
Definition decode_task_arg (arg : value) : value :=
  if truthy arg && truthy (get_prop arg "__cypress_task_no_argument__")
  then VUndefined else arg.

(** The [invoke] that [taskExecute] builds. *)
Definition task_invoke (this : RunPlugins) (task : value)
    (eventId : N) (args : list value) : settle :=
  match get_task_handler this eventId (js_string_of user_source task) with
  | VFun handler => call handler args
  | _ => Fulfilled (VStr "__cypress_unhandled__")
  end.

(** Lines 225-246. *)
Definition taskExecute (i : ids) (args : list value) (this : RunPlugins) : RunPlugins :=
  let task := nth 0 args VUndefined in
  let arg := decode_task_arg (nth 1 args VUndefined) in
  util_wrapChildPromise (task_invoke this task) i [arg] this.

(** The executors of other modules, each called with
    [(ipc, invoke, ids, args)]. *)
Variable devServer_wrap preprocessor_wrap browserLaunch_wrap :
  (N → list value → settle) → ids → list value → RunPlugins → result RunPlugins.

(** The [switch] of [execute]; an event it does not know is dropped. *)
Definition execute (event : string) (i : ids) (args : list value) (this : RunPlugins)
  : result RunPlugins :=
  if decide (event = "dev-server:start") then devServer_wrap (invoke this) i args this
  else if decide (event = "file:preprocessor") then preprocessor_wrap (invoke this) i args this
  else if decide (event ∈ ["before:run"; "before:spec"; "after:run"; "after:spec";
                           "after:screenshot"])
       then Ok (util_wrapChildPromise (invoke this) i args this)
  else if decide (event = "task") then Ok (taskExecute i args this)
  else if decide (event = "_get:task:keys") then taskGetKeys i this
  else if decide (event = "_get:task:body") then taskGetBody i args this
  else if decide (event = "before:browser:launch")
       then browserLaunch_wrap (invoke this) i args this
  else Ok this.

End Bridge.

(** ** Collaborators for the examples

    A validator of the usual shape (a known event wants a function, ["task"]
    wants a plain object, anything else is an unknown event name), an error
    serializer that keeps the name of the error, and user functions that
    answer with their own index and the arguments they were called with. *)

Definition known_events : list string :=
  ["_get:task:body"; "_get:task:keys"; "after:run"; "after:screenshot"; "after:spec";
   "before:browser:launch"; "before:run"; "before:spec"; "dev-server:start";
   "file:preprocessor"].

Definition example_validateEvent (event : string) (handler : value) (_ : config)
  : validation :=
  if decide (event = "task") then
    match handler with
    | VObj _ => mkValidation true VUndefined VUndefined
    | _ => mkValidation false VUndefined (VStr "The handler for the event `task` must be an object")
    end
  else if decide (event ∈ known_events) then
    match handler with
    | VFun _ => mkValidation true VUndefined VUndefined
    | _ => mkValidation false VUndefined (VStr "The handler must be a function")
    end
  else mkValidation false (VArr (VStr <$> "task" :: known_events)) (VStr "invalid event name").

Definition exn_name (e : exn) : string :=
  match e with
  | PLUGINS_INVALID_EVENT_NAME_ERROR _ _ _ _ => "PLUGINS_INVALID_EVENT_NAME_ERROR"
  | CONFIG_FILE_SETUP_NODE_EVENTS_ERROR _ _ _ => "CONFIG_FILE_SETUP_NODE_EVENTS_ERROR"
  | SETUP_NODE_EVENTS_DO_NOT_SUPPORT_DEV_SERVER _ => "SETUP_NODE_EVENTS_DO_NOT_SUPPORT_DEV_SERVER"
  | MIGRATED_OPTION_INVALID key => "MIGRATED_OPTION_INVALID " ++ key
  | TypeError _ => "TypeError"
  | Thrown _ => "Error"
  end.

Definition example_serializeError (e : exn) : value := VObj [("name", VStr (exn_name e))].

Definition example_user_call (i : nat) (args : list value) : settle :=
  Fulfilled (VArr (VNum (Z.of_nat i) :: args)).

Definition example_user_source (i : nat) : string := "function f" ++ index_key i ++ "() {}".

Definition example_config : config :=
  Config (plain <$> {[ "testingType" := VStr "e2e"; "projectRoot" := VStr "/tmp/project" ]}) ∅.

(** The registry once [load] has registered the two protocol events. *)
Definition example_session : RunPlugins :=
  mkRunPlugins "cypress.config.js" 2
    [("_get:task:body", 0%N); ("_get:task:keys", 1%N)]
    {[ 0%N := mkRegistration "_get:task:body" (VFun Noop);
       1%N := mkRegistration "_get:task:keys" (VFun Noop) ]}
    {[ "_get:task:body" := 0%N; "_get:task:keys" := 1%N ]}
    [] [].

(** The same session after the setup routine registered a task mapping and
    a dev server. *)
Definition example_tasks : list (string * value) :=
  [("log", VFun (UserFn 0)); ("db.seed", VFun (UserFn 1))].

Definition example_task_session : RunPlugins :=
  mkRunPlugins "cypress.config.js" 4
    [("_get:task:body", 0%N); ("_get:task:keys", 1%N); ("task", 2%N);
     ("dev-server:start", 3%N)]
    {[ 0%N := mkRegistration "_get:task:body" (VFun Noop);
       1%N := mkRegistration "_get:task:keys" (VFun Noop);
       2%N := mkRegistration "task" (VObj example_tasks);
       3%N := mkRegistration "dev-server:start" (VFun (UserFn 2)) ]}
    {[ "_get:task:body" := 0%N; "_get:task:keys" := 1%N; "task" := 2%N;
       "dev-server:start" := 3%N ]}
    [] [].

(** ** Reachable registries *)

Section Reachability.

Variable validateEvent : string → value → config → validation.
Variable serializeError : exn → value.

(** The validator lets the two protocol events of [load] through. *)
Definition accepts_protocol_events : Prop :=
  ∀ cfg, isValid (validateEvent "_get:task:body" (VFun Noop) cfg) = true
         ∧ isValid (validateEvent "_get:task:keys" (VFun Noop) cfg) = true.

(** The error a rejected event is reported with. *)
Definition rejection (cfg : config) (ev : string) (h : value) (this : RunPlugins) : exn :=
  let v := validateEvent ev h cfg in
  if truthy (userEvents v)
  then PLUGINS_INVALID_EVENT_NAME_ERROR (requiredFile this) ev (userEvents v) (error v)
  else CONFIG_FILE_SETUP_NODE_EVENTS_ERROR (requiredFile this)
         (g_value (config_get cfg "testingType")) (Thrown (error v)).

(** The registry after a call that took a new id. *)
Definition allocated (ev : string) (h : value) (this : RunPlugins) : RunPlugins :=
  mkRunPlugins (requiredFile this) (eventIdCount this + 1)
    (registrations this ++ [(ev, eventIdCount this)])
    (<[eventIdCount this := mkRegistration ev h]> (registeredEventsById this))
    (<[ev := eventIdCount this]> (registeredEventsByName this))
    (ipc this) (warnings this).

(** The registry after a ["task"] call was merged into the registration
    under [id], whose handler was [target]. *)
Definition task_merged (id : N) (target h : value) (this : RunPlugins) : RunPlugins :=
  mkRunPlugins (requiredFile this) (eventIdCount this) (registrations this)
    (<[id := mkRegistration "task" (lodash_extend target h)]> (registeredEventsById this))
    (registeredEventsByName this) (ipc this)
    (warnings this ++
     match lodash_intersection (lodash_keys target) (lodash_keys h) with
     | [] => []
     | duplicates => [duplicates]
     end).

(** The registries an instance gets into through its registration
    callback, whatever the configuration looks like at each call. *)
Inductive reachable (file : string) : RunPlugins → Prop :=
| reachable_new : reachable file (constructor file)
| reachable_register cfg ev h this this' :
    reachable file this →
    registerChildEvent validateEvent serializeError cfg ev h this = Ok this' →
    reachable file this'.

(** The registries of a session: [load] has made its two calls, and the
    setup routine (or the default preprocessor step) any number more. *)
Inductive session (file : string) : RunPlugins → Prop :=
| session_start cfg this :
    load_start validateEvent serializeError cfg (constructor file) = Ok this →
    session file this
| session_register cfg ev h this this' :
    session file this →
    registerChildEvent validateEvent serializeError cfg ev h this = Ok this' →
    session file this'.

End Reachability.

(** What every reachable registry satisfies: the counter is the number of
    registrations made, their ids are 0, 1, 2, ... in order, the ids in use
    are exactly those below the counter, and the three structures agree. *)
Record registry_ok (this : RunPlugins) : Prop := {
  ok_count : eventIdCount this = N.of_nat (length (registrations this));
  ok_ids : (registrations this).*2 = N.of_nat <$> seq 0 (length (registrations this));
  ok_byId : ∀ id, is_Some (registeredEventsById this !! id) ↔ (id < eventIdCount this)%N;
  ok_byName : ∀ ev id,
    registeredEventsByName this !! ev = Some id →
    ∃ h, registeredEventsById this !! id = Some (mkRegistration ev h);
  ok_named : ∀ id r,
    registeredEventsById this !! id = Some r →
    is_Some (registeredEventsByName this !! event r);
  ok_listed : ∀ id r,
    registeredEventsById this !! id = Some r →
    registrations this !! N.to_nat id = Some (event r, id)
}.

(** What a session adds: id 0 belongs to a protocol event, and there is at
    most one ["task"] registration, the one [registeredEventsByName] knows. *)
Record session_ok (this : RunPlugins) : Prop := {
  s_registry : registry_ok this;
  s_zero : ∃ h, registeredEventsById this !! 0%N = Some (mkRegistration "_get:task:body" h);
  s_task : ∀ id r,
    registeredEventsById this !! id = Some r → event r = "task" →
    registeredEventsByName this !! "task" = Some id
}.

(** ** Notions for the further facts *)

(** A key path that [validateNonMigratedOptions] objects to on [options]:
    one of the five keys reading truthy on the configuration, or one of the
    three reading truthy on a truthy testing-type field. *)
Definition offending (options : config) (path : string) : Prop :=
  (path ∈ (optionsNonValidFor10Global ++ optionsNonValidFor10Anywhere)%list
   ∧ truthy (g_value (config_get options path)) = true)
  ∨ ∃ tt k, tt ∈ testingTypes ∧ k ∈ optionsNonValidFor10Anywhere
            ∧ path = tt ++ "." ++ k
            ∧ truthy (g_value (config_get options tt)) = true
            ∧ truthy (guarded_get (config_get options tt) k) = true.

(** The two kinds of message [load] ends with. *)
Definition is_reply (m : message) : bool :=
  match m with SendReply _ _ _ => true | Send _ _ => false end.

Definition setup_error (serialized : value) : message :=
  Send "setupTestingType:error" [serialized].

(** No reply has been sent so far. *)
Definition no_reply (this : RunPlugins) : Prop :=
  Forall (λ msg, is_reply msg = false) (ipc this).

(** The registry in which [load] enters the promise chain when the
    validator lets the two protocol events through. *)
Definition started (file : string) : RunPlugins :=
  mkRunPlugins file 2
    [("_get:task:body", 0%N); ("_get:task:keys", 1%N)]
    (<[1%N := mkRegistration "_get:task:keys" (VFun Noop)]>
       (<[0%N := mkRegistration "_get:task:body" (VFun Noop)]> ∅))
    (<["_get:task:keys" := 1%N]> (<["_get:task:body" := 0%N]> ∅))
    [] [].

(** A configuration that still has options of the old layout. *)
Definition example_legacy_config : config :=
  Config (plain <$> {[ "testingType" := VStr "e2e";
                       "baseUrl" := VStr "http://localhost:3000";
                       "e2e" := VObj [("pluginsFile", VStr "cypress/plugins/index.js");
                                      ("specPattern", VStr "cypress/e2e/**/*.cy.js")] ]}) ∅.

(** A configuration whose [component] field is a string. *)
Definition example_broken_config : config :=
  Config (plain <$> {[ "testingType" := VStr "e2e"; "component" := VStr "yes" ]}) ∅.

(** A configuration as it arrives, made of data properties only: no key of
    it, and no key of one of its fields, is a setter-only accessor yet.  (On
    such a configuration [wrapNonMigratedOptions] defines each accessor once;
    it is the redefinition of an accessor that is not configurable which
    makes [Object.defineProperty] throw.) *)
Definition unguarded (options : config) : Prop :=
  c_setters options = ∅
  ∧ ∀ k sub, c_fields options !! k = Some sub → g_setters sub = ∅.

(** The names a plain object inherits from [Object.prototype]. *)
Definition Object_prototype_names : list string :=
  ["constructor"; "__defineGetter__"; "__defineSetter__"; "hasOwnProperty";
   "__lookupGetter__"; "__lookupSetter__"; "isPrototypeOf"; "propertyIsEnumerable";
   "toString"; "valueOf"; "__proto__"; "toLocaleString"].

(** A property name whose lookup on the plain object with the own properties
    [m] is settled by [m] alone: it is an own key, or a name that
    [Object.prototype] does not have either.  For any other name [m[name]]
    finds the inherited member. *)
Definition settled_by_own (m : list (string * value)) (name : string) : Prop :=
  is_Some (own_lookup name m) ∨ name ∉ Object_prototype_names.

(** * Facts *)

(** ** Property lists and [_.extend] *)

Lemma own_lookup_own_set k k' v ps :
  own_lookup k (own_set k' v ps) = if decide (k = k') then Some v else own_lookup k ps.
Proof.
  induction ps as [|[k0 v0] ps IH]; simpl.
  - repeat case_decide; done.
  - repeat (case_decide; simpl; subst); try done.
Qed.

Lemma own_lookup_Some_keys k ps : is_Some (own_lookup k ps) ↔ k ∈ ps.*1.
Proof.
  induction ps as [|[k0 v0] ps IH]; simpl.
  - split; [intros [? ?]; done | intros ?%elem_of_nil; done].
  - case_decide; subst.
    + split; [intros _; left | eauto].
    + rewrite IH. split; [by right|]. intros [?|?]%elem_of_cons; done.
Qed.

Lemma own_lookup_None_keys k ps : own_lookup k ps = None ↔ k ∉ ps.*1.
Proof. rewrite <- own_lookup_Some_keys, eq_None_not_Some. done. Qed.

Lemma own_lookup_elem k v ps : NoDup ps.*1 → (k, v) ∈ ps → own_lookup k ps = Some v.
Proof.
  induction ps as [|[k0 v0] ps IH]; simpl; intros Hnd Hin.
  - by apply elem_of_nil in Hin.
  - apply NoDup_cons in Hnd as [Hk0 Hnd].
    apply elem_of_cons in Hin as [Heq|Hin].
    + injection Heq as -> ->. by rewrite decide_True.
    + case_decide; subst; [|by apply IH].
      exfalso. apply Hk0. apply list_elem_of_fmap. by exists (k0, v).
Qed.

(** Assigning the entries of [news] one after the other: a key of [news]
    ends up with its last binding there, any other key keeps what it had. *)
Lemma own_lookup_assign_all k news ps :
  own_lookup k (foldl (λ acc p, own_set p.1 p.2 acc) ps news) =
  match own_lookup k (reverse news) with
  | Some v => Some v
  | None => own_lookup k ps
  end.
Proof.
  revert ps. induction news as [|[k' v'] news IH] using rev_ind; intros ps.
  - done.
  - rewrite foldl_app, reverse_app. simpl.
    rewrite own_lookup_own_set. case_decide; [done|]. apply IH.
Qed.

Lemma own_lookup_reverse k ps : NoDup ps.*1 → own_lookup k (reverse ps) = own_lookup k ps.
Proof.
  intros Hnd. destruct (own_lookup k ps) as [v|] eqn:Hl.
  - apply own_lookup_elem.
    + by rewrite fmap_reverse, reverse_Permutation.
    + rewrite elem_of_reverse. clear Hnd.
      induction ps as [|[k0 v0] ps IH]; simpl in *; [done|].
      case_decide; simplify_eq; [left | right; auto].
  - apply own_lookup_None_keys. rewrite fmap_reverse, elem_of_reverse.
    by apply own_lookup_None_keys.
Qed.

(** What [_.extend] leaves under each key when both sides are plain objects. *)
Lemma lodash_extend_lookup k old new merged :
  NoDup new.*1 →
  lodash_extend (VObj old) (VObj new) = VObj merged →
  own_lookup k merged =
  match own_lookup k new with Some v => Some v | None => own_lookup k old end.
Proof.
  intros Hnd [= <-]. rewrite own_lookup_assign_all. by rewrite own_lookup_reverse.
Qed.

Lemma lodash_extend_keys k old new :
  k ∈ lodash_keys (lodash_extend (VObj old) (VObj new)) ↔
  k ∈ lodash_keys (VObj old) ∨ k ∈ lodash_keys (VObj new).
Proof.
  unfold lodash_keys; simpl.
  rewrite <- !own_lookup_Some_keys, own_lookup_assign_all.
  assert (is_Some (own_lookup k (reverse new)) ↔ is_Some (own_lookup k new)) as Hrev.
  { rewrite !own_lookup_Some_keys, fmap_reverse, elem_of_reverse. done. }
  destruct (own_lookup k (reverse new)) as [v|] eqn:Hr.
  - split; [intros _; right; apply Hrev; eauto | eauto].
  - split; [by left|]. intros [?|Hn]; [done|].
    apply Hrev in Hn. by destruct Hn.
Qed.

Lemma lodash_intersection_nil xs ys :
  lodash_intersection xs ys = [] ↔ ∀ k, k ∈ xs → k ∉ ys.
Proof.
  unfold lodash_intersection. split.
  - intros Hnil k Hx Hy.
    assert (k ∈ remove_dups (filter (λ k, k ∈ ys) xs)) as Hin.
    { apply elem_of_remove_dups, list_elem_of_filter. done. }
    rewrite Hnil in Hin. by apply elem_of_nil in Hin.
  - intros Hdisj. destruct (remove_dups _) as [|k l] eqn:Heq; [done|].
    assert (k ∈ remove_dups (filter (λ k, k ∈ ys) xs)) as Hin by (rewrite Heq; left).
    apply elem_of_remove_dups, list_elem_of_filter in Hin as [Hy Hx].
    by destruct (Hdisj k Hx).
Qed.

(** ** The four ways through [registerChildEvent] *)

Section RegistryFacts.

Variable validateEvent : string → value → config → validation.
Variable serializeError : exn → value.

Local Abbreviation register := (registerChildEvent validateEvent serializeError).
Local Abbreviation rejection := (rejection validateEvent).

Lemma register_rejected cfg ev h this :
  isValid (validateEvent ev h cfg) = false →
  register cfg ev h this = Ok (send_error serializeError (rejection cfg ev h this) this).
Proof. intros Hv. unfold registerChildEvent, rejection. by rewrite Hv. Qed.

Lemma register_dev_server_again cfg h this id :
  isValid (validateEvent "dev-server:start" h cfg) = true →
  truthy_id (registeredEventsByName this !! "dev-server:start") = Some id →
  register cfg "dev-server:start" h this =
  Ok (send_error serializeError
        (SETUP_NODE_EVENTS_DO_NOT_SUPPORT_DEV_SERVER (requiredFile this)) this).
Proof.
  intros Hv Hid. unfold registerChildEvent. rewrite Hv, Hid. done.
Qed.

Lemma register_task_merge cfg h this id ev target :
  isValid (validateEvent "task" h cfg) = true →
  truthy_id (registeredEventsByName this !! "task") = Some id →
  registeredEventsById this !! id = Some (mkRegistration ev target) →
  register cfg "task" h this = Ok (task_merged id target h this).
Proof.
  intros Hv Hid Hr. unfold registerChildEvent. rewrite Hv. simpl. rewrite Hid, Hr.
  unfold taskMerge, task_merged.
  destruct (lodash_intersection _ _); simpl; [|done].
  rewrite app_nil_r. by destruct this.
Qed.

Lemma register_allocate cfg ev h this :
  isValid (validateEvent ev h cfg) = true →
  (ev = "dev-server:start" ∨ ev = "task" →
   truthy_id (registeredEventsByName this !! ev) = None) →
  register cfg ev h this = Ok (allocated ev h this).
Proof.
  intros Hv Hn. unfold registerChildEvent. rewrite Hv. simpl.
  destruct (decide (ev = "dev-server:start")) as [->|Hd].
  - rewrite Hn by auto. done.
  - rewrite (bool_decide_eq_false_2 (ev = _)) by done. simpl.
    destruct (decide (ev = "task")) as [->|Ht]; [|done].
    rewrite Hn by auto. done.
Qed.

(** Every call goes one of the four ways, in this order of precedence. *)
Lemma register_cases cfg ev h this :
  registry_ok this →
  (isValid (validateEvent ev h cfg) = false
   ∧ register cfg ev h this = Ok (send_error serializeError (rejection cfg ev h this) this))
  ∨ (isValid (validateEvent ev h cfg) = true ∧ ev = "dev-server:start"
     ∧ is_Some (truthy_id (registeredEventsByName this !! ev))
     ∧ register cfg ev h this =
       Ok (send_error serializeError
             (SETUP_NODE_EVENTS_DO_NOT_SUPPORT_DEV_SERVER (requiredFile this)) this))
  ∨ (∃ id target,
       isValid (validateEvent ev h cfg) = true ∧ ev = "task"
       ∧ truthy_id (registeredEventsByName this !! "task") = Some id
       ∧ registeredEventsById this !! id = Some (mkRegistration "task" target)
       ∧ register cfg ev h this = Ok (task_merged id target h this))
  ∨ (isValid (validateEvent ev h cfg) = true
     ∧ (ev = "dev-server:start" ∨ ev = "task" →
        truthy_id (registeredEventsByName this !! ev) = None)
     ∧ register cfg ev h this = Ok (allocated ev h this)).
Proof.
  intros Hok.
  destruct (isValid (validateEvent ev h cfg)) eqn:Hv;
    [|left; split; [done|by apply register_rejected]].
  right.
  destruct (truthy_id (registeredEventsByName this !! ev)) as [id|] eqn:Hid.
  - destruct (decide (ev = "dev-server:start")) as [->|Hd].
    { left. repeat split; eauto using register_dev_server_again. }
    right. destruct (decide (ev = "task")) as [->|Ht].
    + left. assert (registeredEventsByName this !! "task" = Some id) as Hn.
      { unfold truthy_id in Hid. destruct (_ !! _); [|done]. by case_decide; simplify_eq. }
      destruct (ok_byName _ Hok _ _ Hn) as [target Hr].
      exists id, target. repeat split; eauto using register_task_merge.
    + right. split; [done|]. split; [intros [?|?]; done|].
      apply register_allocate; [done|]. intros [?|?]; done.
  - right. right. split; [done|]. split; [auto|]. apply register_allocate; auto.
Qed.

Lemma register_total cfg ev h this :
  registry_ok this → ∃ this', register cfg ev h this = Ok this'.
Proof.
  intros Hok.
  destruct (register_cases cfg ev h this Hok)
    as [[_ ->]|[(_ & _ & _ & ->)|[(id & target & _ & _ & _ & _ & ->)|(_ & _ & ->)]]];
    eauto.
Qed.

(** *** The invariant *)

Lemma constructor_ok file : registry_ok (constructor file).
Proof.
  split; simpl; try done.
  - intros id. rewrite lookup_empty. split; [intros [? ?]; done | lia].
Qed.

Lemma send_error_ok err this : registry_ok this → registry_ok (send_error serializeError err this).
Proof. intros [? ? ? ? ? ?]. split; simpl; done. Qed.

Lemma allocated_ok ev h this : registry_ok this → registry_ok (allocated ev h this).
Proof.
  intros [Hc Hi Hd Hn Hm Hl]. split; simpl.
  - rewrite length_app, Hc. simpl. lia.
  - rewrite fmap_app, length_app, Hi. simpl.
    rewrite Nat.add_1_r, seq_S, fmap_app, Hc. done.
  - intros id. rewrite lookup_insert. case_decide; subst.
    + split; [lia|eauto].
    + rewrite Hd. lia.
  - intros ev' id. rewrite lookup_insert. case_decide; subst.
    + intros [= <-]. rewrite lookup_insert_eq. eauto.
    + intros Hev. destruct (Hn _ _ Hev) as [h' Hh']. exists h'.
      rewrite lookup_insert_ne; [done|].
      intros <-. assert (eventIdCount this < eventIdCount this)%N; [|lia].
      apply Hd. eauto.
  - intros id r. rewrite lookup_insert. case_decide; subst.
    + intros [= <-]. simpl. rewrite lookup_insert_eq. eauto.
    + intros Hr. apply lookup_insert_is_Some'. right. eauto.
  - intros id r. rewrite lookup_insert. case_decide; subst.
    + intros [= <-]. simpl. rewrite Hc, Nat2N.id.
      rewrite lookup_app_r by lia. by rewrite Nat.sub_diag.
    + intros Hr. rewrite lookup_app_l; [eauto|].
      eapply lookup_lt_Some, Hl, Hr.
Qed.

Lemma task_merged_ok id target h this :
  registry_ok this →
  is_Some (registeredEventsByName this !! "task") →
  registeredEventsById this !! id = Some (mkRegistration "task" target) →
  registry_ok (task_merged id target h this).
Proof.
  intros [Hc Hi Hd Hn Hm Hl] Htask Hid. split; simpl; try done.
  - intros id'. rewrite lookup_insert. case_decide; subst; [|apply Hd].
    split; [intros _; apply Hd|]; eauto.
  - intros ev' id' Hev. destruct (Hn _ _ Hev) as [h' Hh'].
    rewrite lookup_insert. case_decide; subst; [|eauto].
    rewrite Hid in Hh'. injection Hh' as <- <-. eauto.
  - intros id' r. rewrite lookup_insert. case_decide; subst; [|apply Hm].
    intros [= <-]. done.
  - intros id' r. rewrite lookup_insert. case_decide; subst; [|apply Hl].
    intros [= <-]. simpl. apply (Hl _ _ Hid).
Qed.

Lemma register_ok cfg ev h this this' :
  registry_ok this → register cfg ev h this = Ok this' → registry_ok this'.
Proof.
  intros Hok Hreg.
  destruct (register_cases cfg ev h this Hok)
    as [[_ Heq]|[(_ & _ & _ & Heq)|[(id & target & _ & _ & Hid & Hr & Heq)|(_ & _ & Heq)]]];
    rewrite Heq in Hreg; injection Hreg as <-.
  - by apply send_error_ok.
  - by apply send_error_ok.
  - apply task_merged_ok; [done| |done].
    unfold truthy_id in Hid. destruct (_ !! _); [eauto|done].
  - by apply allocated_ok.
Qed.

Lemma reachable_ok file this : reachable validateEvent serializeError file this → registry_ok this.
Proof.
  induction 1 as [|cfg ev h this this' _ IH Hreg]; [apply constructor_ok|].
  eapply register_ok; eauto.
Qed.

(** *** Sessions *)

Lemma truthy_id_Some (o : option N) id : truthy_id o = Some id ↔ o = Some id ∧ id ≠ 0%N.
Proof.
  unfold truthy_id. destruct o as [id'|]; [case_decide; subst|].
  - split; [done|]. intros [[= <-] ?]. done.
  - split; [intros [= <-]; done|]. intros [? _]. done.
  - split; [done|]. intros [? _]. done.
Qed.

Lemma load_start_registers cfg this :
  accepts_protocol_events validateEvent →
  load_start validateEvent serializeError cfg this =
  Ok (allocated "_get:task:keys" (VFun Noop) (allocated "_get:task:body" (VFun Noop) this)).
Proof.
  intros Hacc. destruct (Hacc cfg) as [Hb Hk]. unfold load_start.
  rewrite register_allocate; [|done|intros [?|?]; done]. simpl.
  rewrite register_allocate; [done|done|intros [?|?]; done].
Qed.

Lemma load_start_ok cfg file this :
  accepts_protocol_events validateEvent →
  load_start validateEvent serializeError cfg (constructor file) = Ok this →
  session_ok this.
Proof.
  intros Hacc. rewrite load_start_registers by done. intros [= <-]. split.
  - do 2 apply allocated_ok. apply constructor_ok.
  - simpl. eauto.
  - simpl. intros id r. rewrite !lookup_insert, lookup_empty. intros Hr Hev.
    repeat case_decide; simplify_eq/=.
Qed.

Lemma send_error_session_ok err this :
  session_ok this → session_ok (send_error serializeError err this).
Proof. intros [? ? ?]. split; [by apply send_error_ok|done|done]. Qed.

Lemma session_zero_name this ev :
  session_ok this → registeredEventsByName this !! ev = Some 0%N → ev = "_get:task:body".
Proof.
  intros [Hok [h0 H0] _] Hev. destruct (ok_byName _ Hok _ _ Hev) as [h Hh].
  rewrite H0 in Hh. by injection Hh.
Qed.

Lemma register_session_ok cfg ev h this this' :
  session_ok this → register cfg ev h this = Ok this' → session_ok this'.
Proof.
  intros Hs Hreg. pose proof Hs as [Hok [h0 H0] Htask].
  destruct (register_cases cfg ev h this Hok)
    as [[_ Heq]|[(_ & _ & _ & Heq)|[(id & target & _ & _ & Hid & Hr & Heq)|(_ & Hn & Heq)]]];
    rewrite Heq in Hreg; injection Hreg as <-.
  - by apply send_error_session_ok.
  - by apply send_error_session_ok.
  - apply truthy_id_Some in Hid as [Hid Hne]. split.
    + apply task_merged_ok; eauto.
    + simpl. rewrite lookup_insert_ne by done. eauto.
    + simpl. intros id' r. rewrite lookup_insert. case_decide; subst; [done|apply Htask].
  - assert (eventIdCount this ≠ 0%N) as Hpos.
    { assert (0 < eventIdCount this)%N; [|lia]. apply (ok_byId _ Hok). eauto. }
    split.
    + by apply allocated_ok.
    + simpl. rewrite lookup_insert_ne by done. eauto.
    + simpl. intros id r. rewrite lookup_insert. case_decide; subst.
      * intros [= <-]. simpl. intros ->. by rewrite lookup_insert_eq.
      * intros Hr Hev. pose proof (Htask _ _ Hr Hev) as Hname.
        destruct (decide (ev = "task")) as [->|Hne]; [|by rewrite lookup_insert_ne].
        exfalso. specialize (Hn (or_intror eq_refl)).
        rewrite Hname in Hn. unfold truthy_id in Hn. case_decide; [subst|done].
        by pose proof (session_zero_name _ _ Hs Hname).
Qed.

Lemma session_is_ok file this :
  accepts_protocol_events validateEvent →
  session validateEvent serializeError file this → session_ok this.
Proof.
  intros Hacc. induction 1 as [cfg this Hstart|cfg ev h this this' _ IH Hreg].
  - eapply load_start_ok; eauto.
  - eapply register_session_ok; eauto.
Qed.

(** In a session the id kept for an event that has a registration is
    never the falsy id 0, unless the event is the first protocol event. *)
Lemma session_named_truthy this id r :
  session_ok this →
  registeredEventsById this !! id = Some r →
  event r ≠ "_get:task:body" →
  is_Some (truthy_id (registeredEventsByName this !! event r)).
Proof.
  intros Hs Hr Hne. destruct (ok_named _ (s_registry _ Hs) _ _ Hr) as [id' Hid'].
  exists id'. apply truthy_id_Some. split; [done|].
  intros ->. by apply Hne, (session_zero_name this).
Qed.

End RegistryFacts.

(** ** Registration: ids, the task merge and rejected calls *)

Section RegistryClaims.

Variable validateEvent : string → value → config → validation.
Variable serializeError : exn → value.

Local Abbreviation register := (registerChildEvent validateEvent serializeError).
Local Abbreviation rejection := (rejection validateEvent).

(** C2.  In every registry an instance can reach, the ids handed out so
    far are 0, 1, 2, ... in call order, none of them twice, and the counter
    is their number.  The next call always returns; if it is rejected by
    the validator, is a second ["dev-server:start"] or merges into the
    ["task"] registration, the counter and the list of registrations stay
    as they are; any other call takes the id the counter shows, which no
    registration holds yet, and moves the counter on by one. *)
Theorem ids_follow_call_order file this cfg ev h :
  reachable validateEvent serializeError file this →
  (registrations this).*2 = N.of_nat <$> seq 0 (length (registrations this))
  ∧ NoDup (registrations this).*2
  ∧ eventIdCount this = N.of_nat (length (registrations this))
  ∧ (∀ id, is_Some (registeredEventsById this !! id) ↔ (id < eventIdCount this)%N)
  ∧ ∃ this',
      register cfg ev h this = Ok this'
      ∧ ((isValid (validateEvent ev h cfg) = false
          ∨ (ev = "dev-server:start" ∨ ev = "task")
            ∧ is_Some (truthy_id (registeredEventsByName this !! ev))) →
         eventIdCount this' = eventIdCount this
         ∧ registrations this' = registrations this
         ∧ ∀ id, is_Some (registeredEventsById this' !! id)
                 ↔ is_Some (registeredEventsById this !! id))
      ∧ (isValid (validateEvent ev h cfg) = true →
         (ev = "dev-server:start" ∨ ev = "task" →
          truthy_id (registeredEventsByName this !! ev) = None) →
         registeredEventsById this !! eventIdCount this = None
         ∧ eventIdCount this' = (eventIdCount this + 1)%N
         ∧ registrations this' = (registrations this ++ [(ev, eventIdCount this)])%list
         ∧ registeredEventsById this' =
           <[eventIdCount this := mkRegistration ev h]> (registeredEventsById this)).
Proof.
  intros Hreach. pose proof (reachable_ok _ _ _ _ Hreach) as Hok.
  pose proof Hok as [Hc Hi Hd Hn Hm Hl].
  split; [done|]. split.
  { rewrite Hi. apply NoDup_fmap_2; [intros ? ? ?; lia|apply NoDup_seq]. }
  split; [done|]. split; [done|].
  destruct (register_cases validateEvent serializeError cfg ev h this Hok)
    as [[Hv Heq]|[(Hv & Hev & Hid & Heq)|[(id & target & Hv & Hev & Hid & Hr & Heq)
       |(Hv & Hnone & Heq)]]];
    rewrite Heq; eexists; (split; [done|]).
  - split; [done|]. intros Hv'. congruence.
  - split; [done|]. intros _ Hnone. rewrite Hnone in Hid by auto. by destruct Hid.
  - split.
    + intros _. simpl. do 2 (split; [done|]). intros id'.
      rewrite lookup_insert. case_decide; subst; [|done].
      split; [rewrite Hr|]; eauto.
    + intros _ Hnone. subst ev. rewrite Hnone in Hid by auto. done.
  - split.
    + intros [Hv'|[Hev Hid]]; [congruence|]. rewrite Hnone in Hid by done. by destruct Hid.
    + intros _ _. simpl. split; [|done].
      apply eq_None_not_Some. rewrite Hd. lia.
Qed.

(** C1.  In a session that holds a ["task"] registration, another valid
    registration for ["task"] (a mapping, each key listed once) is merged
    into it under the same id: the merged mapping has the keys of both, a
    key of the new mapping carries the new value, any other key keeps the
    old one, one warning listing the common keys is issued when there are
    any and none otherwise, and the counter, the ids in use, the list of
    registrations, the index by name and the channel are as before. *)
Theorem task_registration_merges_in_place file this cfg id old new :
  accepts_protocol_events validateEvent →
  session validateEvent serializeError file this →
  registeredEventsById this !! id = Some (mkRegistration "task" (VObj old)) →
  isValid (validateEvent "task" (VObj new) cfg) = true →
  NoDup new.*1 →
  ∃ this' merged,
    register cfg "task" (VObj new) this = Ok this'
    ∧ registeredEventsById this' =
      <[id := mkRegistration "task" (VObj merged)]> (registeredEventsById this)
    ∧ (∀ k, k ∈ merged.*1 ↔ k ∈ old.*1 ∨ k ∈ new.*1)
    ∧ (∀ k v, own_lookup k new = Some v → own_lookup k merged = Some v)
    ∧ (∀ k, own_lookup k new = None → own_lookup k merged = own_lookup k old)
    ∧ ((∃ k, k ∈ old.*1 ∧ k ∈ new.*1) →
       ∃ duplicates, warnings this' = (warnings this ++ [duplicates])%list
                     ∧ ∀ k, k ∈ duplicates ↔ k ∈ old.*1 ∧ k ∈ new.*1)
    ∧ ((∀ k, k ∈ old.*1 → k ∉ new.*1) → warnings this' = warnings this)
    ∧ eventIdCount this' = eventIdCount this
    ∧ (∀ id', is_Some (registeredEventsById this' !! id')
              ↔ is_Some (registeredEventsById this !! id'))
    ∧ registrations this' = registrations this
    ∧ registeredEventsByName this' = registeredEventsByName this
    ∧ ipc this' = ipc this.
Proof.
  intros Hacc Hsess Hr Hv Hnd.
  pose proof (session_is_ok _ _ _ _ Hacc Hsess) as Hs.
  pose proof (s_task _ Hs _ _ Hr eq_refl) as Hname.
  assert (truthy_id (registeredEventsByName this !! "task") = Some id) as Hid.
  { apply truthy_id_Some. split; [done|]. intros ->.
    by pose proof (session_zero_name _ _ Hs Hname). }
  rewrite (register_task_merge _ _ _ _ _ _ _ _ Hv Hid Hr).
  set (merged := foldl (λ acc p, own_set p.1 p.2 acc) old new).
  assert (lodash_extend (VObj old) (VObj new) = VObj merged) as Hext by done.
  exists (task_merged id (VObj old) (VObj new) this), merged.
  split; [done|]. split; [done|].
  split. { intros k. pose proof (lodash_extend_keys k old new) as Hk.
           rewrite Hext in Hk. apply Hk. }
  split. { intros k v Hk. rewrite (lodash_extend_lookup k old new merged Hnd Hext).
           by rewrite Hk. }
  split. { intros k Hk. rewrite (lodash_extend_lookup k old new merged Hnd Hext).
           by rewrite Hk. }
  split.
  { intros (k & Ho & Hn). simpl.
    destruct (lodash_intersection _ _) as [|d ds] eqn:Hint.
    - exfalso. by apply (proj1 (lodash_intersection_nil _ _) Hint k Ho).
    - eexists. split; [done|]. intros k'. rewrite <- Hint.
      unfold lodash_intersection.
      rewrite elem_of_remove_dups, list_elem_of_filter. simpl. tauto. }
  split.
  { intros Hdisj. simpl.
    rewrite (proj2 (lodash_intersection_nil _ _)); [by rewrite app_nil_r|done]. }
  split; [done|]. split; [|done].
  intros id'. simpl. rewrite lookup_insert. case_decide; subst; [|done].
  split; [rewrite Hr|]; eauto.
Qed.

(** C6.  In a session that holds a ["dev-server:start"] registration,
    another valid registration for that event sends the
    [SETUP_NODE_EVENTS_DO_NOT_SUPPORT_DEV_SERVER] error, takes no id and
    changes nothing in the registry, so the first registration keeps its id
    and its handler. *)
Theorem second_dev_server_is_refused file this cfg id h0 h :
  accepts_protocol_events validateEvent →
  session validateEvent serializeError file this →
  registeredEventsById this !! id = Some (mkRegistration "dev-server:start" h0) →
  isValid (validateEvent "dev-server:start" h cfg) = true →
  ∃ this',
    register cfg "dev-server:start" h this = Ok this'
    ∧ ipc this' =
      (ipc this ++ [Send "setupTestingType:error"
                      [serializeError
                         (SETUP_NODE_EVENTS_DO_NOT_SUPPORT_DEV_SERVER (requiredFile this))]])%list
    ∧ eventIdCount this' = eventIdCount this
    ∧ registrations this' = registrations this
    ∧ registeredEventsById this' = registeredEventsById this
    ∧ registeredEventsByName this' = registeredEventsByName this
    ∧ registeredEventsById this' !! id = Some (mkRegistration "dev-server:start" h0).
Proof.
  intros Hacc Hsess Hr Hv.
  pose proof (session_is_ok _ _ _ _ Hacc Hsess) as Hs.
  destruct (session_named_truthy _ _ _ Hs Hr) as [id' Hid']; [done|]. simpl in Hid'.
  rewrite (register_dev_server_again _ _ _ _ _ _ Hv Hid').
  eexists. split; [done|]. simpl. repeat split; done.
Qed.

End RegistryClaims.

(** ** The examples are sessions *)

Lemma example_accepts_protocol_events : accepts_protocol_events example_validateEvent.
Proof. intros cfg. split; reflexivity. Qed.

Lemma example_session_is_session :
  session example_validateEvent example_serializeError "cypress.config.js" example_session.
Proof. apply (session_start _ _ _ example_config). vm_compute. reflexivity. Qed.

Lemma example_task_session_is_session :
  session example_validateEvent example_serializeError "cypress.config.js"
    example_task_session.
Proof.
  eapply (session_register _ _ _ example_config "dev-server:start" (VFun (UserFn 2))).
  - eapply (session_register _ _ _ example_config "task" (VObj example_tasks)).
    + apply example_session_is_session.
    + vm_compute. reflexivity.
  - vm_compute. reflexivity.
Qed.

(** ** Rejected calls do not stop the setup *)

Section SetupClaims.

Variable validateEvent : string → value → config → validation.
Variable serializeError : exn → value.
Variable getDefaultPreprocessor : config → value.
Variable nonNodeRequires : value.

Local Abbreviation register := (registerChildEvent validateEvent serializeError).
Local Abbreviation calls := (run_calls validateEvent serializeError).
Local Abbreviation chain :=
  (load_chain validateEvent serializeError getDefaultPreprocessor nonNodeRequires).

(** C5.  A call the validator rejects, and a valid ["dev-server:start"]
    call while [registeredEventsByName] already holds one, returns without
    throwing, having sent exactly one [setupTestingType:error] message (the
    invalid-event error, respectively the dev-server one) and nothing else:
    counter, registrations and both indexes are untouched.  The calls that
    follow it in the setup routine are processed from that registry, and so
    is the rest of the chain of [load]. *)
Theorem rejected_call_is_reported_and_skipped cfg ev h this :
  isValid (validateEvent ev h cfg) = false
  ∨ (ev = "dev-server:start"
     ∧ is_Some (truthy_id (registeredEventsByName this !! "dev-server:start"))) →
  ∃ err this',
    register cfg ev h this = Ok this'
    ∧ (isValid (validateEvent ev h cfg) = false →
       err = rejection validateEvent cfg ev h this)
    ∧ (isValid (validateEvent ev h cfg) = true →
       err = SETUP_NODE_EVENTS_DO_NOT_SUPPORT_DEV_SERVER (requiredFile this))
    ∧ ipc this' = (ipc this ++ [Send "setupTestingType:error" [serializeError err]])%list
    ∧ eventIdCount this' = eventIdCount this
    ∧ registrations this' = registrations this
    ∧ registeredEventsById this' = registeredEventsById this
    ∧ registeredEventsByName this' = registeredEventsByName this
    ∧ warnings this' = warnings this
    ∧ (∀ rest, calls cfg ((ev, h) :: rest) this = calls cfg rest this')
    ∧ (∀ rest settled,
         chain cfg (mkSetup ((ev, h) :: rest) settled) this =
         chain cfg (mkSetup rest settled) this').
Proof.
  intros Hcase.
  assert (∃ err,
    register cfg ev h this = Ok (send_error serializeError err this)
    ∧ (isValid (validateEvent ev h cfg) = false →
       err = rejection validateEvent cfg ev h this)
    ∧ (isValid (validateEvent ev h cfg) = true →
       err = SETUP_NODE_EVENTS_DO_NOT_SUPPORT_DEV_SERVER (requiredFile this)))
    as (err & Hreg & Hrej & Hdev).
  { destruct (isValid (validateEvent ev h cfg)) eqn:Hv.
    - destruct Hcase as [?|[-> [id Hid]]]; [done|].
      eexists. split; [by eapply register_dev_server_again|]. split; done.
    - eexists. split; [by apply register_rejected|]. split; done. }
  exists err, (send_error serializeError err this).
  split; [done|]. do 2 (split; [done|]). simpl. do 6 (split; [done|]).
  assert (∀ rest, calls cfg ((ev, h) :: rest) this =
                  calls cfg rest (send_error serializeError err this)) as Hrun.
  { intros rest. simpl. by rewrite Hreg. }
  split; [done|]. intros rest settled.
  unfold load_chain. simpl on_calls. by rewrite Hrun.
Qed.

End SetupClaims.

(** ** Dispatch *)

Lemma split_dots_plain s : plain_name s → split_dots s = [s].
Proof.
  induction s as [|c s IH]; intros Hp; [done|]. simpl.
  rewrite decide_False by (apply (Hp c); left).
  rewrite IH; [done|]. intros c' Hc'. apply Hp. by right.
Qed.

Lemma pick_least_None {A} (l : list (N * A)) :
  foldr (λ kr acc,
           match acc with
           | Some kr' => if (kr.1 <? kr'.1)%N then Some kr else acc
           | None => Some kr
           end) None l = None ↔ l = [].
Proof.
  destruct l as [|kr l]; [done|]. simpl. split; [|done].
  destruct (foldr _ _ _); [case_match|]; done.
Qed.

Lemma pick_least_Some {A} (l : list (N * A)) kr :
  foldr (λ kr acc,
           match acc with
           | Some kr' => if (kr.1 <? kr'.1)%N then Some kr else acc
           | None => Some kr
           end) None l = Some kr → kr ∈ l.
Proof.
  revert kr. induction l as [|kr0 l IH]; intros kr; [done|]. simpl.
  destruct (foldr _ _ _) as [kr'|]; [case_match|]; intros [= <-];
    first [by left | right; by apply IH].
Qed.

Lemma lodash_find_None ev (byId : gmap N Registration) :
  lodash_find ev byId = None ↔ ∀ id r, byId !! id = Some r → event r ≠ ev.
Proof.
  unfold lodash_find. rewrite fmap_None, pick_least_None. split.
  - intros Hnil id r Hr Hev.
    assert ((id, r) ∈ filter (λ kr : N * Registration, event kr.2 = ev) (map_to_list byId))
      as Hin by (apply list_elem_of_filter; split; [done|by apply elem_of_map_to_list]).
    rewrite Hnil in Hin. by apply elem_of_nil in Hin.
  - intros Hno. destruct (filter _ _) as [|[id r] l] eqn:Hf; [done|].
    assert ((id, r) ∈ filter (λ kr : N * Registration, event kr.2 = ev) (map_to_list byId))
      as Hin by (rewrite Hf; left).
    apply list_elem_of_filter in Hin as [Hev Hin]. apply elem_of_map_to_list in Hin.
    by destruct (Hno id r Hin).
Qed.

Lemma lodash_find_Some ev (byId : gmap N Registration) r :
  lodash_find ev byId = Some r → ∃ id, byId !! id = Some r ∧ event r = ev.
Proof.
  unfold lodash_find. intros ([id r'] & Hpick & ->)%fmap_Some.
  apply pick_least_Some, list_elem_of_filter in Hpick as [Hev Hin].
  apply elem_of_map_to_list in Hin. eauto.
Qed.

Section DispatchClaims.

Variable serializeError : exn → value.
Variable user_call : nat → list value → settle.
Variable user_source : nat → string.

Local Abbreviation wrap := (wrapChildPromise serializeError).
Local Abbreviation util_wrap := (util_wrapChildPromise serializeError).

(** The collaborator of [lib/plugins/util.js] and the method of the class
    are the same function. *)
Lemma util_wrapChildPromise_is_wrapChildPromise invoke i args this :
  util_wrap invoke i args this = wrap invoke i args this.
Proof.
  unfold util_wrapChildPromise, wrapChildPromise.
  destruct (invoke _ _) as [[]| |]; done.
Qed.

(** C4.  Whatever [invoke] the promise-wrapped invocation is given: when
    it resolves to [undefined], one message goes out on
    [promise:fulfilled:<invocationId>] with a [null] error and the string
    [__cypress_undefined__]; when it resolves to any other value, one
    message on that channel with a [null] error and that value; when it
    rejects, one message on that channel with the serialized error and no
    value.  Nothing else of the instance changes. *)
Theorem wrapChildPromise_reports_outcome invoke i args this :
  let channel := "promise:fulfilled:" ++ invocationId i in
  let this' := wrap invoke i args this in
  (invoke (eventId i) args = Fulfilled VUndefined →
   ipc this' = (ipc this ++ [Send channel [VNull; VStr "__cypress_undefined__"]])%list)
  ∧ (∀ v, invoke (eventId i) args = Fulfilled v → v ≠ VUndefined →
          ipc this' = (ipc this ++ [Send channel [VNull; v]])%list)
  ∧ (∀ err, invoke (eventId i) args = Rejected err →
            ipc this' = (ipc this ++ [Send channel [serializeError err]])%list)
  ∧ eventIdCount this' = eventIdCount this
  ∧ registrations this' = registrations this
  ∧ registeredEventsById this' = registeredEventsById this
  ∧ registeredEventsByName this' = registeredEventsByName this.
Proof.
  intros channel this'. subst channel this'. unfold wrapChildPromise.
  destruct (invoke _ _) as [v| |]; simpl.
  - split; [by intros [= ->]|]. split; [|done].
    intros v' [= <-] Hne. by destruct v.
  - split; [done|]. split; [done|]. split; [|done]. by intros err [= <-].
  - done.
Qed.

(** *** Task sub-dispatch *)

Local Abbreviation taskExecute' := (taskExecute serializeError user_call user_source).
Local Abbreviation taskGetKeys' := (taskGetKeys serializeError).
Local Abbreviation taskGetBody' := (taskGetBody serializeError user_source).

(** The argument restored by [taskExecute] is [undefined] exactly for
    [undefined] itself and for a plain object whose own
    [__cypress_task_no_argument__] is truthy. *)
Lemma decode_task_arg_undefined arg :
  decode_task_arg arg = VUndefined ↔
  arg = VUndefined
  ∨ ∃ ps v, arg = VObj ps
            ∧ own_lookup "__cypress_task_no_argument__" ps = Some v ∧ truthy v = true.
Proof.
  unfold decode_task_arg. split.
  - destruct (truthy arg && truthy (get_prop arg _)) eqn:Hb; [intros _|by left].
    right. apply andb_true_iff in Hb as [_ Hm].
    destruct arg as [| |b|n|s|f|l|ps]; try done.
    simpl in Hm. destruct (own_lookup _ ps) as [v|] eqn:Hl; [|done].
    by exists ps, v.
  - intros [->|(ps & v & -> & Hl & Ht)]; simpl; [done|]. rewrite Hl. simpl. by rewrite Ht.
Qed.

Lemma decode_task_arg_other arg : decode_task_arg arg ≠ VUndefined → decode_task_arg arg = arg.
Proof. unfold decode_task_arg. by case_match. Qed.

(** C8, as the code has it.  The marker for "no argument" is not a string:
    when the argument is a plain object whose own property
    [__cypress_task_no_argument__] is truthy (the boundary sends
    [{ __cypress_task_no_argument__: true }]), the handler bound to the task
    name is called with [undefined] as its single argument; any other
    argument, a string included, reaches the handler unchanged. *)
Theorem task_argument_is_decoded i task arg this f :
  get_task_handler this (eventId i) (js_string_of user_source task) = VFun f →
  (∀ ps v, arg = VObj ps →
           own_lookup "__cypress_task_no_argument__" ps = Some v → truthy v = true →
           taskExecute' i [task; arg] this =
           util_wrap (λ _ _, call user_call f [VUndefined]) i [] this)
  ∧ ((∀ ps v, arg = VObj ps →
              own_lookup "__cypress_task_no_argument__" ps = Some v → truthy v = false) →
     taskExecute' i [task; arg] this =
     util_wrap (λ _ _, call user_call f [arg]) i [] this).
Proof.
  intros Hf.
  assert (∀ x, util_wrap (task_invoke user_call user_source this task) i [x] this =
               util_wrap (λ _ _, call user_call f [x]) i [] this) as Hcall.
  { intros x. unfold util_wrapChildPromise, task_invoke. by rewrite Hf. }
  unfold taskExecute. simpl nth. split.
  - intros ps v -> Hl Ht. rewrite <- Hcall.
    replace (decode_task_arg (VObj ps)) with VUndefined; [done|].
    symmetry. apply decode_task_arg_undefined. right. by exists ps, v.
  - intros Hno. rewrite <- Hcall.
    replace (decode_task_arg arg) with arg; [done|].
    destruct (decode_task_arg arg) eqn:Hd;
      try (by rewrite <- Hd; symmetry; apply decode_task_arg_other; rewrite Hd).
    apply decode_task_arg_undefined in Hd as [->|(ps & v & -> & Hl & Ht)]; [done|].
    rewrite (Hno _ _ eq_refl Hl) in Ht. done.
Qed.

(** For a task name without dots and brackets, [taskExecute] looks the
    name up in the mapping itself: a callable found there is called with
    the arguments given, and anything else yields the marker. *)
Lemma task_invoke_plain_name this id m name args :
  registeredEventsById this !! id = Some (mkRegistration "task" (VObj m)) →
  plain_name name →
  task_invoke user_call user_source this (VStr name) id args =
  match own_lookup name m with
  | Some (VFun f) => call user_call f args
  | _ => Fulfilled (VStr "__cypress_unhandled__")
  end.
Proof.
  intros Hr Hp. unfold task_invoke, get_task_handler. rewrite Hr. simpl.
  rewrite split_dots_plain by done. simpl.
  destruct (own_lookup name m) as [[]|]; done.
Qed.

(** What [taskExecute] does for such a name, given the id of the ["task"]
    registration: a callable under the name is called with the one decoded
    argument; without one, the outcome is a [null] error and the marker. *)
Lemma taskExecute_plain_name i name arg this m :
  registeredEventsById this !! eventId i = Some (mkRegistration "task" (VObj m)) →
  plain_name name →
  (∀ f, own_lookup name m = Some (VFun f) →
        taskExecute' i [VStr name; arg] this =
        util_wrap (λ _ _, call user_call f [decode_task_arg arg]) i [] this)
  ∧ ((∀ f, own_lookup name m ≠ Some (VFun f)) →
     ipc (taskExecute' i [VStr name; arg] this) =
     (ipc this ++ [Send ("promise:fulfilled:" ++ invocationId i)
                     [VNull; VStr "__cypress_unhandled__"]])%list).
Proof.
  intros Hr Hp. unfold taskExecute, util_wrapChildPromise. simpl nth.
  rewrite (task_invoke_plain_name _ _ _ _ _ Hr Hp). split.
  - intros f ->. done.
  - intros Hno. destruct (own_lookup name m) as [[| | | | |f| |]|]; try done.
    by destruct (Hno f).
Qed.

Variable devServer_wrap preprocessor_wrap browserLaunch_wrap :
  (N → list value → settle) → ids → list value → RunPlugins → result RunPlugins.

Local Abbreviation execute' :=
  (execute serializeError user_call user_source
     devServer_wrap preprocessor_wrap browserLaunch_wrap).


End DispatchClaims.

(** ** The guards on migrated options *)

Lemma own_lookup_own_delete k key ps :
  k ≠ key → own_lookup k (own_delete key ps) = own_lookup k ps.
Proof.
  intros Hne. unfold own_delete. induction ps as [|[k0 v0] ps IH]; [done|].
  rewrite filter_cons. simpl. repeat case_decide; simplify_eq/=; try done.
  - by rewrite decide_True.
  - by rewrite decide_False.
Qed.

Lemma get_prop_without_own k key v : k ≠ key → get_prop (without_own key v) k = get_prop v k.
Proof. intros Hne. destruct v; simpl; try done. by rewrite own_lookup_own_delete. Qed.

Lemma is_object_truthy v : is_object v = true → truthy v = true.
Proof. by destruct v. Qed.

Lemma is_object_without_own key v : is_object (without_own key v) = is_object v.
Proof. by destruct v. Qed.

(** What one round of the inner loop does when it does not throw. *)
Lemma wrap_testingType_Ok key tt o o' :
  wrap_testingType key tt o = Ok o' →
  let cur := config_get o tt in
  let sub := if truthy (g_value cur) then cur else plain (VObj []) in
  c_setters o !! tt = None
  ∧ is_object (g_value sub) = true
  ∧ o' = Config
           (<[tt := Guarded (without_own key (g_value sub))
                      (<[key := tt ++ "." ++ key]> (g_setters sub))]> (c_fields o))
           (c_setters o).
Proof.
  intros Hw cur sub. unfold wrap_testingType, config_assign in Hw. fold cur sub in Hw.
  destruct (c_setters o !! tt) eqn:Hs; [done|]. simpl in Hw.
  unfold config_get in Hw. simpl in Hw. rewrite Hs, lookup_insert_eq in Hw. simpl in Hw.
  unfold setInvalidPropSetterWarning_in in Hw.
  destruct (is_object (g_value sub)) eqn:Ho; [|done]. simpl in Hw.
  injection Hw as <-. rewrite insert_insert_eq. done.
Qed.

(** The loops of [wrapNonMigratedOptions], one step at a time. *)
Lemma wrapNonMigratedOptions_steps o o' :
  wrapNonMigratedOptions o = Ok o' →
  ∃ s4 s5 s7 s8 s10,
    wrap_testingType "integrationFolder" "component"
      (setInvalidPropSetterWarning
         (setInvalidPropSetterWarning (setInvalidPropSetterWarning o "baseUrl") "supportFile")
         "integrationFolder") = Ok s4
    ∧ wrap_testingType "integrationFolder" "e2e" s4 = Ok s5
    ∧ wrap_testingType "componentFolder" "component"
        (setInvalidPropSetterWarning s5 "componentFolder") = Ok s7
    ∧ wrap_testingType "componentFolder" "e2e" s7 = Ok s8
    ∧ wrap_testingType "pluginsFile" "component"
        (setInvalidPropSetterWarning s8 "pluginsFile") = Ok s10
    ∧ wrap_testingType "pluginsFile" "e2e" s10 = Ok o'.
Proof.
  unfold wrapNonMigratedOptions. simpl. intros Hw.
  repeat match type of Hw with
         | context [wrap_testingType ?k ?tt ?s] =>
             let H := fresh "Hstep" in
             destruct (wrap_testingType k tt s) eqn:H; simpl in Hw; [|done]
         end.
  injection Hw as <-. do 5 eexists.
  repeat (split; [reflexivity || eassumption|]). eassumption.
Qed.

Create HintDb guards.

Lemma config_get_set o k' k :
  k' ≠ k → config_get (setInvalidPropSetterWarning o k') k = config_get o k.
Proof.
  intros Hne. unfold config_get, setInvalidPropSetterWarning. simpl.
  by rewrite lookup_insert_ne, lookup_delete_ne.
Qed.

Lemma config_get_wrap_other key tt o o' k :
  tt ≠ k → wrap_testingType key tt o = Ok o' → config_get o' k = config_get o k.
Proof.
  intros Hne (_ & _ & ->)%wrap_testingType_Ok. unfold config_get. simpl.
  by rewrite lookup_insert_ne.
Qed.

Lemma trapped_set_same o k : trapped (setInvalidPropSetterWarning o k) k.
Proof. apply lookup_insert_eq. Qed.

Lemma trapped_set o k' k : trapped o k → trapped (setInvalidPropSetterWarning o k') k.
Proof.
  unfold trapped. simpl. intros Hk. rewrite lookup_insert. by case_decide; subst.
Qed.

Lemma trapped_wrap key tt o o' k :
  wrap_testingType key tt o = Ok o' → trapped o k → trapped o' k.
Proof. by intros (_ & _ & ->)%wrap_testingType_Ok. Qed.

Lemma trapped_in_set o k' tt k :
  k' ≠ tt → trapped_in o tt k → trapped_in (setInvalidPropSetterWarning o k') tt k.
Proof.
  intros Hne (Hs & sub & Hf & Ho & Hk). split; simpl.
  - by rewrite lookup_insert_ne.
  - exists sub. by rewrite lookup_delete_ne.
Qed.

Lemma trapped_in_wrap_same key tt o o' :
  wrap_testingType key tt o = Ok o' → trapped_in o' tt key.
Proof.
  intros (Hs & Ho & ->)%wrap_testingType_Ok. split; [done|]. simpl.
  eexists. rewrite lookup_insert_eq. split; [done|]. simpl.
  by rewrite is_object_without_own, lookup_insert_eq.
Qed.

Lemma trapped_in_wrap key' tt' o o' tt k :
  wrap_testingType key' tt' o = Ok o' → trapped_in o tt k → trapped_in o' tt k.
Proof.
  intros (Hs' & Ho' & ->)%wrap_testingType_Ok (Hs & sub & Hf & Ho & Hk).
  split; [done|]. simpl. destruct (decide (tt' = tt)) as [->|Hne].
  - eexists. rewrite lookup_insert_eq. split; [done|]. simpl.
    unfold config_get. rewrite Hs, Hf. simpl.
    rewrite (is_object_truthy _ Ho), is_object_without_own. split; [done|].
    rewrite lookup_insert. by case_decide; subst.
  - exists sub. by rewrite lookup_insert_ne.
Qed.

Lemma kept_refl o k : kept o o k.
Proof. done. Qed.

Lemma kept_set o s k' k : k' ≠ k → kept o s k → kept o (setInvalidPropSetterWarning s k') k.
Proof.
  intros Hne [Hf Hs]. split; simpl.
  - by rewrite lookup_delete_ne.
  - by rewrite lookup_insert_ne.
Qed.

Lemma kept_wrap key tt o s s' k :
  wrap_testingType key tt s = Ok s' → tt ≠ k → kept o s k → kept o s' k.
Proof.
  intros (_ & _ & ->)%wrap_testingType_Ok Hne [Hf Hs]. split; simpl; [|done].
  by rewrite lookup_insert_ne.
Qed.

Lemma kept_in_refl o tt k : kept_in o o tt k.
Proof. done. Qed.

Lemma kept_in_set o s k' tt k :
  k' ≠ tt → kept_in o s tt k → kept_in o (setInvalidPropSetterWarning s k') tt k.
Proof. intros Hne. unfold kept_in. by rewrite config_get_set. Qed.

Lemma kept_in_wrap key tt' o s s' tt k :
  wrap_testingType key tt' s = Ok s' → key ≠ k → kept_in o s tt k → kept_in o s' tt k.
Proof.
  intros Hw Hne. destruct (decide (tt' = tt)) as [->|Htt].
  2:{ unfold kept_in. by rewrite (config_get_wrap_other _ _ _ _ _ Htt Hw). }
  apply wrap_testingType_Ok in Hw as (Hs & Ho & ->). unfold kept_in. intros <-.
  unfold config_get at 1. simpl. rewrite Hs, lookup_insert_eq. simpl.
  unfold guarded_get at 1. simpl. rewrite lookup_insert_ne by done.
  rewrite get_prop_without_own by done.
  destruct (truthy (g_value (config_get s tt))) eqn:Ht; [done|].
  simpl. rewrite lookup_empty. unfold guarded_get.
  destruct (g_setters _ !! k); [done|].
  by destruct (g_value (config_get s tt)).
Qed.

Lemma absent_set s k' tt :
  k' ≠ tt → absent s tt → absent (setInvalidPropSetterWarning s k') tt.
Proof. intros Hne. unfold absent. by rewrite config_get_set. Qed.

Lemma absent_wrap key tt' s s' tt :
  wrap_testingType key tt' s = Ok s' → tt' ≠ tt → absent s tt → absent s' tt.
Proof. intros Hw Hne. unfold absent. by rewrite (config_get_wrap_other _ _ _ _ _ Hne Hw). Qed.

Lemma created_empty_set s k' tt :
  k' ≠ tt → created_empty s tt → created_empty (setInvalidPropSetterWarning s k') tt.
Proof.
  intros Hne (Hs & sub & Hf & Hv & Hk). split; simpl.
  - by rewrite lookup_insert_ne.
  - exists sub. by rewrite lookup_delete_ne.
Qed.

Lemma created_empty_wrap_absent key tt s s' :
  wrap_testingType key tt s = Ok s' →
  key ∈ optionsNonValidFor10Anywhere → absent s tt → created_empty s' tt.
Proof.
  intros (Hs & Ho & ->)%wrap_testingType_Ok Hkey Habs. unfold absent in Habs.
  split; [done|]. simpl. eexists. rewrite lookup_insert_eq. split; [done|].
  rewrite Habs. simpl. split; [done|].
  intros k. rewrite lookup_insert, lookup_empty. case_decide; subst; [done|].
  by intros [? ?].
Qed.

Lemma created_empty_wrap key tt' s s' tt :
  wrap_testingType key tt' s = Ok s' →
  key ∈ optionsNonValidFor10Anywhere → created_empty s tt → created_empty s' tt.
Proof.
  intros (Hs' & Ho' & ->)%wrap_testingType_Ok Hkey (Hs & sub & Hf & Hv & Hk).
  split; [done|]. simpl. destruct (decide (tt' = tt)) as [->|Hne].
  - eexists. rewrite lookup_insert_eq. split; [done|].
    unfold config_get. rewrite Hs, Hf. simpl. rewrite Hv. simpl.
    split; [by rewrite Hv|].
    intros k. rewrite lookup_insert. case_decide; subst; [by intros _|apply Hk].
  - exists sub. by rewrite lookup_insert_ne.
Qed.

#[local] Hint Resolve trapped_set_same trapped_set trapped_wrap trapped_in_set
  trapped_in_wrap_same trapped_in_wrap kept_refl kept_set kept_wrap kept_in_refl
  kept_in_set kept_in_wrap absent_set absent_wrap created_empty_set
  created_empty_wrap_absent created_empty_wrap : guards.
#[local] Hint Extern 1 (_ ≠ _) => done : guards.
#[local] Hint Extern 1 (_ ∈ optionsNonValidFor10Anywhere) =>
  (unfold optionsNonValidFor10Anywhere; repeat constructor) : guards.

Lemma wrapNonMigratedOptions_trapped o o' k :
  wrapNonMigratedOptions o = Ok o' →
  k ∈ (optionsNonValidFor10Global ++ optionsNonValidFor10Anywhere)%list → trapped o' k.
Proof.
  intros (s4 & s5 & s7 & s8 & s10 & H4 & H5 & H7 & H8 & H10 & Ho')%wrapNonMigratedOptions_steps.
  unfold optionsNonValidFor10Global, optionsNonValidFor10Anywhere. simpl.
  rewrite !elem_of_cons, elem_of_nil.
  intros [->|[->|[->|[->|[->|[]]]]]]; eauto 15 with guards.
Qed.

Lemma wrapNonMigratedOptions_trapped_in o o' tt k :
  wrapNonMigratedOptions o = Ok o' →
  tt ∈ testingTypes → k ∈ optionsNonValidFor10Anywhere → trapped_in o' tt k.
Proof.
  intros (s4 & s5 & s7 & s8 & s10 & H4 & H5 & H7 & H8 & H10 & Ho')%wrapNonMigratedOptions_steps.
  unfold testingTypes, optionsNonValidFor10Anywhere. rewrite !elem_of_cons, !elem_of_nil.
  intros [->|[->|[]]] [->|[->|[->|[]]]]; eauto 15 with guards.
Qed.

Lemma config_get_insert fields setters tt x :
  setters !! tt = None → config_get (Config (<[tt := x]> fields) setters) tt = x.
Proof. intros Hs. unfold config_get. simpl. by rewrite Hs, lookup_insert_eq. Qed.

Lemma ready_set s k' : k' ∉ testingTypes → ready s → ready (setInvalidPropSetterWarning s k').
Proof.
  intros Hk' Hr tt Htt. destruct (Hr tt Htt) as [Hs Hv].
  assert (k' ≠ tt) by (by intros ->).
  rewrite config_get_set by done. split; [|done]. simpl. by rewrite lookup_insert_ne.
Qed.

Lemma wrap_testingType_total key tt s :
  tt ∈ testingTypes → ready s →
  ∃ s', wrap_testingType key tt s = Ok s' ∧ ready s'.
Proof.
  intros Htt Hr. destruct (Hr tt Htt) as [Hs Hv].
  assert (is_object
            (g_value (if truthy (g_value (config_get s tt))
                      then config_get s tt else plain (VObj []))) = true) as Ho.
  { destruct Hv as [->|Ho]; [done|]. by rewrite (is_object_truthy _ Ho). }
  assert (wrap_testingType key tt s =
          Ok (Config
                (<[tt := Guarded
                           (without_own key
                              (g_value (if truthy (g_value (config_get s tt))
                                        then config_get s tt else plain (VObj []))))
                           (<[key := tt ++ "." ++ key]>
                              (g_setters (if truthy (g_value (config_get s tt))
                                          then config_get s tt else plain (VObj []))))]>
                   (c_fields s))
                (c_setters s))) as Hw.
  { unfold wrap_testingType, config_assign. rewrite Hs. simpl.
    rewrite config_get_insert by done.
    unfold setInvalidPropSetterWarning_in. rewrite Ho. simpl.
    by rewrite insert_insert_eq. }
  eexists. split; [exact Hw|].
  intros tt' Htt'. destruct (Hr tt' Htt') as [Hs' Hv']. split; [done|].
  destruct (decide (tt = tt')) as [<-|Hne].
  - right. rewrite config_get_insert by done. simpl.
    by rewrite is_object_without_own.
  - by rewrite (config_get_wrap_other _ _ _ _ _ Hne Hw).
Qed.

Lemma wrapNonMigratedOptions_total o : ready o → ∃ o', wrapNonMigratedOptions o = Ok o'.
Proof.
  intros Hr. unfold wrapNonMigratedOptions. simpl.
  repeat match goal with
         | |- context [wrap_testingType ?k ?tt ?s] =>
             let s' := fresh "s" in
             let Hw := fresh "Hw" in
             let Hr' := fresh "Hr" in
             destruct (wrap_testingType_total k tt s) as (s' & Hw & Hr');
             [unfold testingTypes; repeat constructor
             |repeat apply ready_set;
              (done || (unfold testingTypes; rewrite !elem_of_cons, elem_of_nil;
                        intros [?|[?|[]]]; done))
             |rewrite Hw; simpl]
         end.
  eauto.
Qed.

Lemma config_assign_Ok s k v s' :
  config_assign s k v = Ok s' →
  c_setters s !! k = None ∧ s' = Config (<[k := v]> (c_fields s)) (c_setters s).
Proof.
  unfold config_assign. destruct (c_setters s !! k); [done|]. by intros [= <-].
Qed.

Lemma config_assign_in_Ok s tt k v s' :
  config_assign_in s tt k v = Ok s' →
  ∃ sub', guarded_assign (config_get s tt) k v = Ok sub'
          ∧ s' = Config (<[tt := sub']> (c_fields s)) (c_setters s).
Proof.
  unfold config_assign_in. destruct (guarded_assign _ _ _) as [sub'|]; [|done].
  simpl. intros [= <-]. eauto.
Qed.

Lemma guarded_assign_Ok sub k v sub' :
  guarded_assign sub k v = Ok sub' →
  g_setters sub' = g_setters sub ∧ is_object (g_value sub') = is_object (g_value sub).
Proof.
  unfold guarded_assign. destruct (g_setters sub !! k); [done|].
  destruct (g_value sub) eqn:Hv; try done; intros [= <-]; simpl; by rewrite ?Hv.
Qed.

(** Writes that go through do not remove a trap. *)
Lemma after_writes_trapped wrapped s :
  after_writes wrapped s →
  (∀ k, trapped wrapped k → trapped s k)
  ∧ (∀ tt k, tt ∈ testingTypes → trapped_in wrapped tt k → trapped_in s tt k).
Proof.
  induction 1 as [|s k v s' _ [IHt IHi] Hk Hw|s tt k v s' _ [IHt IHi] Hw].
  - done.
  - apply config_assign_Ok in Hw as [_ ->]. split; [apply IHt|].
    intros tt k0 Htt Htr. destruct (IHi tt k0 Htt Htr) as (Hs & sub & Hf & Ho & Hsub).
    split; [done|]. exists sub. simpl. rewrite lookup_insert_ne; [done|].
    by intros ->.
  - apply config_assign_in_Ok in Hw as (sub' & Hg & ->). split; [apply IHt|].
    intros tt0 k0 Htt Htr. destruct (IHi tt0 k0 Htt Htr) as (Hs & sub & Hf & Ho & Hsub).
    split; [done|]. simpl. destruct (decide (tt = tt0)) as [->|Hne].
    + exists sub'. rewrite lookup_insert_eq. split; [done|].
      unfold config_get in Hg. rewrite Hs, Hf in Hg. simpl in Hg.
      apply guarded_assign_Ok in Hg as [-> ->]. done.
    + exists sub. by rewrite lookup_insert_ne.
Qed.

(** C3.  Once [wrapNonMigratedOptions] has run, and whatever writes have
    gone through since, a write to [baseUrl], [supportFile],
    [integrationFolder], [componentFolder] or [pluginsFile] on the
    configuration throws [MIGRATED_OPTION_INVALID] with that key, and a write
    to one of the last three on the [e2e] or [component] field throws it with
    the path [e2e.<key>] or [component.<key>].
    [validateNonMigratedOptions] throws an error of the same kind as soon as
    one of these keys reads truthy, on the configuration or (for the last
    three) on a truthy [e2e] or [component] field, and returns otherwise. *)
Theorem migrated_options_are_refused :
  (∀ o wrapped s, wrapNonMigratedOptions o = Ok wrapped → after_writes wrapped s →
     (∀ k v, k ∈ (optionsNonValidFor10Global ++ optionsNonValidFor10Anywhere)%list →
             config_assign s k v = Throw (MIGRATED_OPTION_INVALID k))
     ∧ (∀ tt k v, tt ∈ testingTypes → k ∈ optionsNonValidFor10Anywhere →
                  config_assign_in s tt k v
                  = Throw (MIGRATED_OPTION_INVALID (tt ++ "." ++ k))))
  ∧ (∀ o,
       (∀ k, k ∈ (optionsNonValidFor10Global ++ optionsNonValidFor10Anywhere)%list →
             truthy (g_value (config_get o k)) = true →
             ∃ key, validateNonMigratedOptions o = Throw (MIGRATED_OPTION_INVALID key))
       ∧ (∀ tt k, tt ∈ testingTypes → k ∈ optionsNonValidFor10Anywhere →
                  truthy (g_value (config_get o tt)) = true →
                  truthy (guarded_get (config_get o tt) k) = true →
                  ∃ key, validateNonMigratedOptions o = Throw (MIGRATED_OPTION_INVALID key))
       ∧ ((∀ k, k ∈ (optionsNonValidFor10Global ++ optionsNonValidFor10Anywhere)%list →
                truthy (g_value (config_get o k)) = false) →
          (∀ tt k, tt ∈ testingTypes → k ∈ optionsNonValidFor10Anywhere →
                   truthy (g_value (config_get o tt))
                   && truthy (guarded_get (config_get o tt) k) = false) →
          validateNonMigratedOptions o = Ok o)).
Proof.
  split.
  - intros o wrapped s Hw Hafter.
    destruct (after_writes_trapped wrapped s Hafter) as [Htop Hin]. split.
    + intros k v Hk.
      pose proof (Htop k (wrapNonMigratedOptions_trapped o wrapped k Hw Hk)) as Ht.
      unfold config_assign. by rewrite Ht.
    + intros tt k v Htt Hk.
      destruct (Hin tt k Htt (wrapNonMigratedOptions_trapped_in o wrapped tt k Hw Htt Hk))
        as (Hs & sub & Hf & Ho & Hsub).
      unfold config_assign_in, config_get. rewrite Hs, Hf. simpl.
      unfold guarded_assign. by rewrite Hsub.
  - intros o.
    unfold validateNonMigratedOptions, optionsNonValidFor10Global,
      optionsNonValidFor10Anywhere, testingTypes. simpl.
    unfold validate_key, validate_testingType, throwInvalidOptionError.
    split; [|split].
    + intros k. rewrite !elem_of_cons, elem_of_nil.
      intros [->|[->|[->|[->|[->|[]]]]]] Hk;
        repeat (case_match; simpl; [by eauto|]); congruence.
    + intros tt k. rewrite !elem_of_cons, !elem_of_nil.
      intros [->|[->|[]]] [->|[->|[->|[]]]] Htt Hk;
        repeat (case_match; simpl; [by eauto|]);
        rewrite Htt, Hk in *; done.
    + intros Htop Hsub.
      repeat (first [rewrite Htop by repeat constructor
                    |rewrite Hsub by repeat constructor]; simpl).
      done.
Qed.


(** ** The claims on the example session *)

Lemma session_reachable validateEvent serializeError file this :
  session validateEvent serializeError file this →
  reachable validateEvent serializeError file this.
Proof.
  induction 1 as [cfg this Hstart|cfg ev h this this' _ IH Hreg].
  - unfold load_start in Hstart.
    destruct (registerChildEvent _ _ cfg "_get:task:body" _ _) as [s1|] eqn:H1; [|done].
    simpl in Hstart. eapply reachable_register; [|exact Hstart].
    eapply reachable_register; [apply reachable_new|exact H1].
  - eapply reachable_register; eauto.
Qed.

Lemma ids_follow_call_order_witness :
  reachable example_validateEvent example_serializeError "cypress.config.js"
    example_task_session
  ∧ (registrations example_task_session).*2 = [0; 1; 2; 3]%N
  ∧ ∃ this',
      registerChildEvent example_validateEvent example_serializeError example_config
        "before:run" (VFun (UserFn 3)) example_task_session = Ok this'
      ∧ eventIdCount this' = 5%N
      ∧ registrations this' =
        (registrations example_task_session ++ [("before:run", 4%N)])%list.
Proof.
  pose proof (session_reachable _ _ _ _ example_task_session_is_session) as Hreach.
  split; [exact Hreach|].
  destruct (ids_follow_call_order example_validateEvent example_serializeError
              "cypress.config.js" example_task_session example_config
              "before:run" (VFun (UserFn 3)) Hreach)
    as (Hids & _ & _ & _ & this' & Hreg & _ & Halloc).
  split; [exact Hids|].
  exists this'. split; [exact Hreg|].
  destruct Halloc as (_ & Hcount & Hregs & _);
    [reflexivity | intros [?|?]; discriminate |].
  split; [exact Hcount | exact Hregs].
Defined.

Lemma task_registration_merges_in_place_witness :
  session example_validateEvent example_serializeError "cypress.config.js"
    example_task_session
  ∧ ∃ this' merged,
      registerChildEvent example_validateEvent example_serializeError example_config
        "task" (VObj [("log", VFun (UserFn 5)); ("ping", VFun (UserFn 6))])
        example_task_session = Ok this'
      ∧ registeredEventsById this' !! 2%N = Some (mkRegistration "task" (VObj merged))
      ∧ own_lookup "log" merged = Some (VFun (UserFn 5))
      ∧ own_lookup "db.seed" merged = Some (VFun (UserFn 1))
      ∧ (∃ duplicates, warnings this' = [duplicates] ∧ "log" ∈ duplicates)
      ∧ eventIdCount this' = 4%N
      ∧ registrations this' = registrations example_task_session.
Proof.
  split; [exact example_task_session_is_session|].
  destruct (task_registration_merges_in_place example_validateEvent example_serializeError
              "cypress.config.js" example_task_session example_config 2%N example_tasks
              [("log", VFun (UserFn 5)); ("ping", VFun (UserFn 6))]
              example_accepts_protocol_events example_task_session_is_session)
    as (this' & merged & Hreg & HbyId & _ & Hnew & Hold & Hdup & _ & Hcount & _ & Hregs & _).
  - reflexivity.
  - reflexivity.
  - compute_done.
  - exists this', merged. split; [exact Hreg|].
    split; [rewrite HbyId; apply lookup_insert_eq|].
    split; [apply Hnew; reflexivity|].
    split; [rewrite Hold; reflexivity|].
    split.
    + destruct Hdup as (duplicates & Hw & Hd).
      * exists "log". split; compute_done.
      * exists duplicates. split; [exact Hw|].
        apply Hd. split; compute_done.
    + split; [exact Hcount | exact Hregs].
Defined.

Lemma second_dev_server_is_refused_witness :
  session example_validateEvent example_serializeError "cypress.config.js"
    example_task_session
  ∧ ∃ this',
      registerChildEvent example_validateEvent example_serializeError example_config
        "dev-server:start" (VFun (UserFn 9)) example_task_session = Ok this'
      ∧ ipc this' =
        [Send "setupTestingType:error"
           [example_serializeError
              (SETUP_NODE_EVENTS_DO_NOT_SUPPORT_DEV_SERVER "cypress.config.js")]]
      ∧ eventIdCount this' = 4%N
      ∧ registeredEventsById this' !! 3%N
        = Some (mkRegistration "dev-server:start" (VFun (UserFn 2))).
Proof.
  split; [exact example_task_session_is_session|].
  destruct (second_dev_server_is_refused example_validateEvent example_serializeError
              "cypress.config.js" example_task_session example_config 3%N
              (VFun (UserFn 2)) (VFun (UserFn 9))
              example_accepts_protocol_events example_task_session_is_session)
    as (this' & Hreg & Hipc & Hcount & _ & _ & _ & Hsame).
  - reflexivity.
  - reflexivity.
  - exists this'. split; [exact Hreg|]. split; [exact Hipc|].
    split; [exact Hcount | exact Hsame].
Defined.

Lemma rejected_call_is_reported_and_skipped_witness :
  isValid (example_validateEvent "before:everything" (VFun (UserFn 4)) example_config) = false
  ∧ ∃ err this',
      registerChildEvent example_validateEvent example_serializeError example_config
        "before:everything" (VFun (UserFn 4)) example_task_session = Ok this'
      ∧ ipc this' = [Send "setupTestingType:error" [example_serializeError err]]
      ∧ registrations this' = registrations example_task_session
      ∧ run_calls example_validateEvent example_serializeError example_config
          [("before:everything", VFun (UserFn 4)); ("after:run", VFun (UserFn 5))]
          example_task_session
        = run_calls example_validateEvent example_serializeError example_config
            [("after:run", VFun (UserFn 5))] this'.
Proof.
  split; [reflexivity|].
  destruct (rejected_call_is_reported_and_skipped example_validateEvent
              example_serializeError (λ _, VFun Noop) VNull example_config
              "before:everything" (VFun (UserFn 4)) example_task_session)
    as (err & this' & Hreg & _ & _ & Hipc & _ & Hregs & _ & _ & _ & Hrun & _).
  - left. reflexivity.
  - exists err, this'. split; [exact Hreg|]. split; [exact Hipc|].
    split; [exact Hregs | apply Hrun].
Defined.

(** A whole run of [load]: the rejected call is reported, the calls after
    it are registered, the default preprocessor is added and the reply
    lists all four registrations. *)
Example setup_continues_after_rejection :
  ipc <$> load example_validateEvent example_serializeError (λ _, VFun Noop) VNull
            example_config
            (mkSetup [("before:everything", VFun (UserFn 4)); ("after:run", VFun (UserFn 5))]
               (Resolves (ReturnedValue VUndefined)))
            (constructor "cypress.config.js")
  = Ok [Send "setupTestingType:error"
          [VObj [("name", VStr "PLUGINS_INVALID_EVENT_NAME_ERROR")]];
        SendReply (ReturnedValue VUndefined)
          [("_get:task:body", 0%N); ("_get:task:keys", 1%N); ("after:run", 2%N);
           ("file:preprocessor", 3%N)]
          VNull].
Proof. vm_compute. reflexivity. Qed.

(** C7, on the example session.  The mapping has the callable [f1] under the
    key [db.seed]; [_get:task:keys] lists that key and [_get:task:body]
    answers with the source of [f1]; but executing the task [db.seed] does
    not call it and answers with the marker [__cypress_unhandled__], because
    [_.get] takes the dot in the name for a path separator.  The task [log]
    is found and called with the one argument. *)
Theorem dotted_task_name_is_not_dispatched :
  let this := example_task_session in
  let executed args :=
    ipc (taskExecute example_serializeError example_user_call example_user_source
           (mkIds 2 "inv-7") args this) in
  own_lookup "db.seed" example_tasks = Some (VFun (UserFn 1))
  ∧ executed [VStr "db.seed"; VNum 5]
    = [Send "promise:fulfilled:inv-7" [VNull; VStr "__cypress_unhandled__"]]
  ∧ executed [VStr "log"; VNum 5]
    = [Send "promise:fulfilled:inv-7" [VNull; VArr [VNum 0; VNum 5]]]
  ∧ ipc <$> taskGetBody example_serializeError example_user_source
              (mkIds 0 "inv-8") [VStr "db.seed"] this
    = Ok [Send "promise:fulfilled:inv-8" [VNull; VStr "function f1() {}"]]
  ∧ ipc <$> taskGetKeys example_serializeError (mkIds 1 "inv-9") this
    = Ok [Send "promise:fulfilled:inv-9" [VNull; VArr [VStr "log"; VStr "db.seed"]]].
Proof. vm_compute. repeat split; reflexivity. Qed.

(** The other way round: a name that is no key of the mapping reaches a
    callable nested under its pieces. *)
Example nested_callable_is_reached_by_dotted_name :
  let tasks := [("db", VObj [("seed", VFun (UserFn 1))])] in
  let this :=
    mkRunPlugins "cypress.config.js" 1 [("task", 0%N)]
      {[ 0%N := mkRegistration "task" (VObj tasks) ]} {[ "task" := 0%N ]} [] [] in
  own_lookup "db.seed" tasks = None
  ∧ ipc (taskExecute example_serializeError example_user_call example_user_source
           (mkIds 0 "inv-7") [VStr "db.seed"; VNum 5] this)
    = [Send "promise:fulfilled:inv-7" [VNull; VArr [VNum 1; VNum 5]]].
Proof. vm_compute. split; reflexivity. Qed.

(** C8, as the spec words it: no string at all, and so not the string
    [__cypress_task_no_argument__] either, is turned into [undefined]; the
    handler of [log] is called with the string itself. *)
Lemma no_string_is_the_no_argument_marker :
  ¬ (∃ sentinel : string, decode_task_arg (VStr sentinel) = VUndefined)
  ∧ ipc (taskExecute example_serializeError example_user_call example_user_source
           (mkIds 2 "inv-7") [VStr "log"; VStr "__cypress_task_no_argument__"]
           example_task_session)
    = [Send "promise:fulfilled:inv-7"
         [VNull; VArr [VNum 0; VStr "__cypress_task_no_argument__"]]].
Proof.
  split; [|vm_compute; reflexivity].
  intros [sentinel Hd]. unfold decode_task_arg in Hd. simpl in Hd.
  rewrite andb_false_r in Hd. discriminate.
Qed.

Lemma task_argument_is_decoded_witness :
  get_task_handler example_task_session 2 "log" = VFun (UserFn 0)
  ∧ taskExecute example_serializeError example_user_call example_user_source
      (mkIds 2 "inv-7") [VStr "log"; VObj [("__cypress_task_no_argument__", VBool true)]]
      example_task_session
    = util_wrapChildPromise example_serializeError
        (λ _ _, call example_user_call (UserFn 0) [VUndefined]) (mkIds 2 "inv-7") []
        example_task_session
  ∧ taskExecute example_serializeError example_user_call example_user_source
      (mkIds 2 "inv-7") [VStr "log"; VStr "__cypress_task_no_argument__"]
      example_task_session
    = util_wrapChildPromise example_serializeError
        (λ _ _, call example_user_call (UserFn 0) [VStr "__cypress_task_no_argument__"])
        (mkIds 2 "inv-7") [] example_task_session.
Proof.
  split; [reflexivity|]. split.
  - destruct (task_argument_is_decoded example_serializeError example_user_call
                example_user_source (mkIds 2 "inv-7") (VStr "log")
                (VObj [("__cypress_task_no_argument__", VBool true)])
                example_task_session (UserFn 0) eq_refl) as [Hmarked _].
    apply (Hmarked [("__cypress_task_no_argument__", VBool true)] (VBool true));
      reflexivity.
  - destruct (task_argument_is_decoded example_serializeError example_user_call
                example_user_source (mkIds 2 "inv-7") (VStr "log")
                (VStr "__cypress_task_no_argument__")
                example_task_session (UserFn 0) eq_refl) as [_ Hother].
    apply Hother. intros ps v Heq. discriminate Heq.
Defined.



Lemma migrated_options_are_refused_witness :
  ∃ wrapped,
    wrapNonMigratedOptions example_config = Ok wrapped
    ∧ config_assign wrapped "baseUrl" (plain (VStr "http://localhost:3000"))
      = Throw (MIGRATED_OPTION_INVALID "baseUrl")
    ∧ config_assign_in wrapped "e2e" "integrationFolder" (VStr "cypress/integration")
      = Throw (MIGRATED_OPTION_INVALID "e2e.integrationFolder")
    ∧ ∃ key,
        validateNonMigratedOptions
          (Config (plain <$> {[ "pluginsFile" := VStr "cypress/plugins/index.js" ]}) ∅)
        = Throw (MIGRATED_OPTION_INVALID key).
Proof.
  destruct (wrapNonMigratedOptions example_config) as [wrapped|] eqn:Hw;
    [|vm_compute in Hw; discriminate Hw].
  exists wrapped. split; [reflexivity|].
  destruct migrated_options_are_refused as [Hwrite Hvalidate].
  destruct (Hwrite example_config wrapped wrapped Hw (after_none wrapped)) as [Htop Hin].
  split; [apply Htop; compute_done|].
  split; [apply (Hin "e2e" "integrationFolder"); compute_done|].
  destruct (Hvalidate
              (Config (plain <$> {[ "pluginsFile" := VStr "cypress/plugins/index.js" ]}) ∅))
    as (Hkey & _ & _).
  apply (Hkey "pluginsFile"); [compute_done|reflexivity].
Defined.

Lemma wrapChildPromise_reports_outcome_witness :
  let reported eventId :=
    ipc (wrapChildPromise example_serializeError
           (invoke example_user_call example_task_session)
           (mkIds eventId "inv-1") [VNum 8] example_task_session) in
  reported 0%N = [Send "promise:fulfilled:inv-1" [VNull; VStr "__cypress_undefined__"]]
  ∧ reported 3%N = [Send "promise:fulfilled:inv-1" [VNull; VArr [VNum 2; VNum 8]]]
  ∧ reported 2%N = [Send "promise:fulfilled:inv-1" [VObj [("name", VStr "TypeError")]]].
Proof.
  intros reported. subst reported.
  split; [|split].
  - pose proof (wrapChildPromise_reports_outcome example_serializeError
                  (invoke example_user_call example_task_session)
                  (mkIds 0 "inv-1") [VNum 8] example_task_session) as H.
    simpl in H. destruct H as (Hundefined & _). apply Hundefined. reflexivity.
  - pose proof (wrapChildPromise_reports_outcome example_serializeError
                  (invoke example_user_call example_task_session)
                  (mkIds 3 "inv-1") [VNum 8] example_task_session) as H.
    simpl in H. destruct H as (_ & Hvalue & _).
    apply (Hvalue (VArr [VNum 2; VNum 8])); [reflexivity|discriminate].
  - pose proof (wrapChildPromise_reports_outcome example_serializeError
                  (invoke example_user_call example_task_session)
                  (mkIds 2 "inv-1") [VNum 8] example_task_session) as H.
    simpl in H. destruct H as (_ & _ & Hrejected & _).
    apply (Hrejected (TypeError "event.handler is not a function")). reflexivity.
Defined.



(** * Further facts *)

(** ** The guards, beyond the claims *)

Lemma validateNonMigratedOptions_passes o :
  (∀ k, k ∈ (optionsNonValidFor10Global ++ optionsNonValidFor10Anywhere)%list →
        truthy (g_value (config_get o k)) = false) →
  (∀ tt k, tt ∈ testingTypes → k ∈ optionsNonValidFor10Anywhere →
           truthy (g_value (config_get o tt))
           && truthy (guarded_get (config_get o tt) k) = false) →
  validateNonMigratedOptions o = Ok o.
Proof.
  unfold validateNonMigratedOptions, optionsNonValidFor10Global,
    optionsNonValidFor10Anywhere, testingTypes. simpl.
  unfold validate_key, validate_testingType, throwInvalidOptionError.
  intros Htop Hsub.
  repeat (first [rewrite Htop by repeat constructor
                |rewrite Hsub by repeat constructor]; simpl).
  done.
Qed.

Lemma trapped_reads_undefined s k : trapped s k → config_get s k = plain VUndefined.
Proof. unfold trapped, config_get. by intros ->. Qed.

Lemma trapped_in_reads_undefined s tt k :
  trapped_in s tt k → guarded_get (config_get s tt) k = VUndefined.
Proof.
  intros (Hs & sub & Hf & _ & Hk). unfold config_get. rewrite Hs, Hf. simpl.
  unfold guarded_get. by rewrite Hk.
Qed.

(** X1.  Once the guards are installed, and after any assignments that did
    not throw, to keys of the configuration other than [component] and [e2e]
    themselves and to properties of its fields, each of the five keys reads
    [undefined] on the configuration and each of the three on its [component]
    and [e2e] fields: the value a trapped key had is gone.  So
    [validateNonMigratedOptions] does not object to that object.  (Assigning
    a new object to [component] or [e2e] is another matter, see X17.) *)
Theorem guarded_configuration_reads_undefined_and_validates o wrapped s :
  wrapNonMigratedOptions o = Ok wrapped → after_writes wrapped s →
  (∀ k, k ∈ (optionsNonValidFor10Global ++ optionsNonValidFor10Anywhere)%list →
        config_get s k = plain VUndefined)
  ∧ (∀ tt k, tt ∈ testingTypes → k ∈ optionsNonValidFor10Anywhere →
             guarded_get (config_get s tt) k = VUndefined)
  ∧ validateNonMigratedOptions s = Ok s.
Proof.
  intros Hw Hafter. destruct (after_writes_trapped wrapped s Hafter) as [Htop Hin].
  assert (∀ k, k ∈ (optionsNonValidFor10Global ++ optionsNonValidFor10Anywhere)%list →
               config_get s k = plain VUndefined) as Hread.
  { intros k Hk. apply trapped_reads_undefined, Htop.
    by apply (wrapNonMigratedOptions_trapped o). }
  assert (∀ tt k, tt ∈ testingTypes → k ∈ optionsNonValidFor10Anywhere →
                  guarded_get (config_get s tt) k = VUndefined) as Hread_in.
  { intros tt k Htt Hk. apply trapped_in_reads_undefined, Hin; [done|].
    by apply (wrapNonMigratedOptions_trapped_in o). }
  split; [done|]. split; [done|].
  apply validateNonMigratedOptions_passes.
  - intros k Hk. by rewrite Hread.
  - intros tt k Htt Hk. rewrite Hread_in by done. apply andb_false_r.
Qed.

Lemma validateNonMigratedOptions_cases o :
  (validateNonMigratedOptions o = Ok o ∧ ∀ path, ¬ offending o path)
  ∨ ∃ path, validateNonMigratedOptions o = Throw (MIGRATED_OPTION_INVALID path)
            ∧ offending o path.
Proof.
  unfold validateNonMigratedOptions, optionsNonValidFor10Global,
    optionsNonValidFor10Anywhere, testingTypes. simpl.
  unfold validate_key, validate_testingType, throwInvalidOptionError.
  repeat match goal with
         | |- context [(if ?b then _ else _) ≫= _] =>
             destruct b eqn:?; simpl;
             [right; eexists; split; [reflexivity|];
              first [left; split; [repeat constructor|assumption]
                    |right;
                     match goal with
                     | H : truthy (g_value (config_get o ?tt))
                           && truthy (guarded_get _ ?k) = true |- _ =>
                         apply andb_true_iff in H as [? ?]; exists tt, k
                     end;
                     split; [repeat constructor|];
                     split; [repeat constructor|]; done]
             |]
         end.
  left. split; [done|].
  unfold offending, optionsNonValidFor10Global, optionsNonValidFor10Anywhere, testingTypes.
  simpl. intros path [[Hin Ht]|(tt & k & Htt & Hk & -> & Ht1 & Ht2)].
  - rewrite !elem_of_cons, elem_of_nil in Hin.
    destruct Hin as [->|[->|[->|[->|[->|[]]]]]]; congruence.
  - rewrite !elem_of_cons, elem_of_nil in Htt.
    rewrite !elem_of_cons, elem_of_nil in Hk.
    destruct Htt as [->|[->|[]]]; destruct Hk as [->|[->|[->|[]]]];
      rewrite Ht1, Ht2 in *; done.
Qed.

(** X2.  [validateNonMigratedOptions] either returns the configuration it
    was given, and then no key path is offending, or throws
    [MIGRATED_OPTION_INVALID] naming a path that is offending; it throws
    nothing else. *)
Theorem validation_names_an_offending_path o :
  (validateNonMigratedOptions o = Ok o ∧ ∀ path, ¬ offending o path)
  ∨ ∃ path, validateNonMigratedOptions o = Throw (MIGRATED_OPTION_INVALID path)
            ∧ offending o path.
Proof. apply validateNonMigratedOptions_cases. Qed.

Lemma wrap_testingType_Throw key tt s e :
  wrap_testingType key tt s = Throw e →
  (∃ msg, e = TypeError msg) ∨ (∃ k, e = MIGRATED_OPTION_INVALID k).
Proof.
  unfold wrap_testingType, config_assign.
  destruct (c_setters s !! tt) eqn:Hs; simpl; [intros [= <-]; eauto|].
  rewrite config_get_insert by done. unfold setInvalidPropSetterWarning_in.
  destruct (is_object _); simpl; [done|]. intros [= <-]. eauto.
Qed.

Lemma wrap_testingType_needs key tt s s' :
  wrap_testingType key tt s = Ok s' →
  c_setters s !! tt = None
  ∧ (truthy (g_value (config_get s tt)) = false
     ∨ is_object (g_value (config_get s tt)) = true).
Proof.
  intros (Hs & Ho & _)%wrap_testingType_Ok. split; [done|].
  destruct (truthy (g_value (config_get s tt))); [by right|by left].
Qed.

Lemma wrapNonMigratedOptions_returns_iff_ready o :
  (∃ wrapped, wrapNonMigratedOptions o = Ok wrapped) ↔ ready o.
Proof.
  split.
  - intros [wrapped Hw].
    apply wrapNonMigratedOptions_steps in Hw
      as (s4 & s5 & _ & _ & _ & H4 & H5 & _).
    pose proof (wrap_testingType_Ok _ _ _ _ H4) as (_ & _ & Hs4).
    apply wrap_testingType_needs in H4 as [Hc Hcv].
    apply wrap_testingType_needs in H5 as [He Hev].
    rewrite !config_get_set in Hcv by done.
    rewrite Hs4 in He, Hev. simpl in He.
    unfold config_get in Hev. simpl in Hev. rewrite lookup_insert_ne in Hev by done.
    simpl in Hc, He. rewrite !lookup_insert_ne in Hc, He by done.
    rewrite !lookup_insert_ne in Hev by done. rewrite !lookup_delete_ne in Hev by done.
    intros tt. unfold testingTypes. rewrite !elem_of_cons, elem_of_nil.
    intros [->|[->|[]]]; (split; [done|]); [done|].
    unfold config_get. exact Hev.
  - apply wrapNonMigratedOptions_total.
Qed.

Lemma wrap_testingType_setters key tt s s' :
  wrap_testingType key tt s = Ok s' → c_setters s' = c_setters s.
Proof. by intros (_ & _ & ->)%wrap_testingType_Ok. Qed.

Lemma wrap_testingType_Throw_untrapped key tt s e :
  c_setters s !! tt = None →
  wrap_testingType key tt s = Throw e → ∃ msg, e = TypeError msg.
Proof.
  unfold wrap_testingType, config_assign. intros Hs. rewrite Hs. simpl.
  rewrite config_get_insert by done. unfold setInvalidPropSetterWarning_in.
  destruct (is_object _); simpl; [done|]. intros [= <-]. eauto.
Qed.

(** X3.  On a configuration that carries no setter-only property yet,
    [wrapNonMigratedOptions] returns exactly when [component] and [e2e] each
    hold an object or something falsy.  Otherwise it throws, and what it
    throws is a [TypeError]: [Object.defineProperty] was called on a truthy
    value that is not an object. *)
Theorem guards_install_exactly_when_ready o :
  unguarded o →
  ((∃ wrapped, wrapNonMigratedOptions o = Ok wrapped)
   ↔ ∀ tt, tt ∈ testingTypes →
           truthy (g_value (config_get o tt)) = false
           ∨ is_object (g_value (config_get o tt)) = true)
  ∧ ∀ e, wrapNonMigratedOptions o = Throw e → ∃ msg, e = TypeError msg.
Proof.
  intros [Hnone _]. split.
  - rewrite wrapNonMigratedOptions_returns_iff_ready. unfold ready. split.
    + intros Hr tt Htt. by destruct (Hr tt Htt).
    + intros Hr tt Htt. split; [by rewrite Hnone|auto].
  - unfold wrapNonMigratedOptions. simpl. intros e He.
    repeat match type of He with
           | context [wrap_testingType ?k ?tt ?s] =>
               let H := fresh "Hstep" in
               destruct (wrap_testingType k tt s) eqn:H; simpl in He;
               [apply wrap_testingType_setters in H
               |injection He as <-;
                eapply wrap_testingType_Throw_untrapped; [|exact H];
                repeat first [progress simpl
                             |rewrite lookup_insert_ne by done
                             |match goal with
                              | Hs : c_setters ?a = _ |- context [c_setters ?a] => rewrite Hs
                              end];
                apply lookup_empty]
           end.
    done.
Qed.

(** X17.  The guards of [component] and [e2e] sit on the two objects, not
    on the two keys: after installation the assignment of a new plain object
    to one of the keys goes through, assignments to the three keys of that
    object go through as well, and when the new object holds one of them with
    a truthy value it is only [validateNonMigratedOptions] that objects. *)
Theorem replaced_testing_type_object_is_unguarded o wrapped tt k props :
  wrapNonMigratedOptions o = Ok wrapped →
  tt ∈ testingTypes → k ∈ optionsNonValidFor10Anywhere →
  ∃ s,
    config_assign wrapped tt (plain (VObj props)) = Ok s
    ∧ (∀ v, ∃ s', config_assign_in s tt k v = Ok s'
                  ∧ guarded_get (config_get s' tt) k = v)
    ∧ (truthy (default VUndefined (own_lookup k props)) = true →
       ∃ path, validateNonMigratedOptions s = Throw (MIGRATED_OPTION_INVALID path)
               ∧ offending s path).
Proof.
  intros Hw Htt Hk.
  destruct (wrapNonMigratedOptions_trapped_in o wrapped tt k Hw Htt Hk) as [Hfree _].
  unfold config_assign. rewrite Hfree. eexists. split; [reflexivity|]. split.
  - intros v. unfold config_assign_in. rewrite config_get_insert by done.
    unfold guarded_assign. simpl. rewrite lookup_empty. simpl.
    eexists. split; [reflexivity|].
    rewrite config_get_insert by done. unfold guarded_get. simpl.
    rewrite lookup_empty, own_lookup_own_set. by case_decide.
  - intros Htruthy.
    match goal with
    | |- context [validateNonMigratedOptions ?s] =>
        destruct (validateNonMigratedOptions_cases s) as [[_ Hnone]|Hthrow]
    end; [|exact Hthrow].
    exfalso. apply (Hnone (tt ++ "." ++ k)). right. exists tt, k.
    split; [done|]. split; [done|]. split; [done|].
    rewrite config_get_insert by done. split; [done|].
    unfold guarded_get. simpl. by rewrite lookup_empty.
Qed.

(** ** The registry, beyond the claims *)

Lemma lodash_extend_keeps_keys target source k :
  k ∈ lodash_keys target → k ∈ lodash_keys (lodash_extend target source).
Proof.
  destruct target as [| | | | | | |ps]; try done. unfold lodash_keys. simpl.
  rewrite <- !own_lookup_Some_keys, own_lookup_assign_all. intros [v Hv].
  destruct (own_lookup k (reverse _)); eauto.
Qed.

Section RegistryMore.

Variable validateEvent : string → value → config → validation.
Variable serializeError : exn → value.
Variable user_call : nat → list value → settle.

Local Abbreviation register := (registerChildEvent validateEvent serializeError).
Local Abbreviation calls := (run_calls validateEvent serializeError).

(** One call leaves every registration in place: same id, same event, and
    the same handler unless it is the task mapping, which keeps its keys. *)
Lemma register_keeps cfg ev h this this' id r :
  registry_ok this →
  register cfg ev h this = Ok this' →
  registeredEventsById this !! id = Some r →
  ∃ r', registeredEventsById this' !! id = Some r'
        ∧ event r' = event r
        ∧ (event r ≠ "task" → r' = r)
        ∧ (∀ k, k ∈ lodash_keys (handler r) → k ∈ lodash_keys (handler r'))
        ∧ registrations this `prefix_of` registrations this'.
Proof.
  intros Hok Hreg Hr.
  destruct (register_cases validateEvent serializeError cfg ev h this Hok)
    as [[_ Heq]|[(_ & _ & _ & Heq)|[(id0 & target & _ & _ & _ & Hr0 & Heq)|(_ & _ & Heq)]]];
    rewrite Heq in Hreg; injection Hreg as <-; simpl.
  - exists r. done.
  - exists r. done.
  - destruct (decide (id0 = id)) as [->|Hne].
    + rewrite lookup_insert_eq. rewrite Hr0 in Hr. injection Hr as <-. simpl.
      eexists. split; [done|]. split; [done|]. split; [done|].
      split; [|done]. intros k. apply lodash_extend_keeps_keys.
    + rewrite lookup_insert_ne by done. exists r. done.
  - rewrite lookup_insert_ne.
    + exists r. repeat (split; [done|]). by apply prefix_app_r.
    + intros Heq'. assert (id < eventIdCount this)%N by (apply (ok_byId _ Hok); eauto).
      lia.
Qed.

Lemma run_calls_keeps file this cfg more id r :
  reachable validateEvent serializeError file this →
  registeredEventsById this !! id = Some r →
  ∃ this' r',
    calls cfg more this = (this', None)
    ∧ reachable validateEvent serializeError file this'
    ∧ registeredEventsById this' !! id = Some r'
    ∧ event r' = event r
    ∧ (event r ≠ "task" → r' = r)
    ∧ (∀ k, k ∈ lodash_keys (handler r) → k ∈ lodash_keys (handler r'))
    ∧ registrations this `prefix_of` registrations this'.
Proof.
  revert this r. induction more as [|[ev h] more IH]; intros this r Hreach Hr.
  - exists this, r. done.
  - pose proof (reachable_ok _ _ _ _ Hreach) as Hok.
    destruct (register_total validateEvent serializeError cfg ev h this Hok) as [this1 Hreg].
    destruct (register_keeps _ _ _ _ _ _ _ Hok Hreg Hr)
      as (r1 & Hr1 & Hev1 & Hsame1 & Hkeys1 & Hpre1).
    assert (reachable validateEvent serializeError file this1) as Hreach1
      by (eapply reachable_register; eauto).
    destruct (IH this1 r1 Hreach1 Hr1)
      as (this' & r' & Hrun & Hreach' & Hr' & Hev' & Hsame' & Hkeys' & Hpre').
    exists this', r'. simpl. rewrite Hreg.
    split; [done|]. split; [done|]. split; [done|].
    split; [congruence|]. split.
    { intros Hne. rewrite Hsame'; [by apply Hsame1|congruence]. }
    split; [auto|]. by etrans.
Qed.

(** X4.  In a registry the instance can reach, further registration calls
    never throw and never drop or renumber a registration: it stays under
    its id with its event; its handler is untouched unless the event is
    ["task"], in which case every key it had is still a key; and the list
    of registrations only grows at its end. *)
Theorem registrations_are_never_dropped file this cfg more id r :
  reachable validateEvent serializeError file this →
  registeredEventsById this !! id = Some r →
  ∃ this' r',
    calls cfg more this = (this', None)
    ∧ reachable validateEvent serializeError file this'
    ∧ registeredEventsById this' !! id = Some r'
    ∧ event r' = event r
    ∧ (event r ≠ "task" → r' = r)
    ∧ (∀ k, k ∈ lodash_keys (handler r) → k ∈ lodash_keys (handler r'))
    ∧ registrations this `prefix_of` registrations this'.
Proof. apply run_calls_keeps. Qed.

(** X5.  A callable registered for an event other than ["task"] (and not
    as a second dev server) is the one [invoke] calls under the id that the
    list of registrations shows for it, with the arguments given, however
    many registration calls follow. *)
Theorem registered_handler_is_invoked file this cfg ev f more :
  reachable validateEvent serializeError file this →
  isValid (validateEvent ev (VFun f) cfg) = true →
  ev ≠ "task" →
  (ev = "dev-server:start" → truthy_id (registeredEventsByName this !! ev) = None) →
  ∃ this',
    calls cfg ((ev, VFun f) :: more) this = (this', None)
    ∧ (ev, eventIdCount this) ∈ registrations this'
    ∧ ∀ args, invoke user_call this' (eventIdCount this) args = call user_call f args.
Proof.
  intros Hreach Hv Hne Hdev.
  assert (register cfg ev (VFun f) this = Ok (allocated ev (VFun f) this)) as Hreg.
  { apply register_allocate; [done|]. intros [?|?]; [auto|done]. }
  assert (reachable validateEvent serializeError file (allocated ev (VFun f) this))
    as Hreach1 by (eapply reachable_register; eauto).
  destruct (run_calls_keeps file _ cfg more (eventIdCount this)
              (mkRegistration ev (VFun f)) Hreach1)
    as (this' & r' & Hrun & _ & Hr' & _ & Hsame & _ & Hpre).
  { simpl. apply lookup_insert_eq. }
  exists this'. simpl. rewrite Hreg. split; [done|]. split.
  - destruct Hpre as [rest ->]. simpl. rewrite !elem_of_app. left. right. left.
  - intros args. unfold invoke. rewrite Hr', (Hsame Hne). done.
Qed.

Lemma session_dev_server_single file this :
  accepts_protocol_events validateEvent →
  session validateEvent serializeError file this →
  ∀ id r, registeredEventsById this !! id = Some r → event r = "dev-server:start" →
          registeredEventsByName this !! "dev-server:start" = Some id.
Proof.
  intros Hacc. induction 1 as [cfg this Hstart|cfg ev h this this' Hsess IH Hreg].
  - rewrite load_start_registers in Hstart by done. injection Hstart as <-. simpl.
    intros id r. rewrite !lookup_insert, lookup_empty. intros Hr Hev.
    repeat case_decide; simplify_eq/=.
  - pose proof (session_is_ok _ _ _ _ Hacc Hsess) as Hs.
    pose proof (s_registry _ Hs) as Hok.
    destruct (register_cases validateEvent serializeError cfg ev h this Hok)
      as [[_ Heq]|[(_ & _ & _ & Heq)|[(id0 & target & _ & _ & _ & Hr0 & Heq)|(_ & Hn & Heq)]]];
      rewrite Heq in Hreg; injection Hreg as <-; simpl; try done.
    + intros id r. rewrite lookup_insert. case_decide; subst; [|apply IH].
      by intros [= <-].
    + intros id r. rewrite lookup_insert. case_decide; subst.
      * intros [= <-]. simpl. intros ->. by rewrite lookup_insert_eq.
      * intros Hr Hev. pose proof (IH _ _ Hr Hev) as Hname.
        destruct (decide (ev = "dev-server:start")) as [->|Hne];
          [|by rewrite lookup_insert_ne].
        exfalso. specialize (Hn (or_introl eq_refl)). rewrite Hname in Hn.
        unfold truthy_id in Hn. case_decide; [subst|done].
        by pose proof (session_zero_name _ _ Hs Hname).
Qed.

(** X6.  In a session there is never more than one registration for
    ["task"] and never more than one for ["dev-server:start"]. *)
Theorem one_task_and_one_dev_server file this id1 id2 r1 r2 :
  accepts_protocol_events validateEvent →
  session validateEvent serializeError file this →
  registeredEventsById this !! id1 = Some r1 →
  registeredEventsById this !! id2 = Some r2 →
  event r1 = event r2 →
  event r1 = "task" ∨ event r1 = "dev-server:start" →
  id1 = id2 ∧ r1 = r2.
Proof.
  intros Hacc Hsess H1 H2 Hev Hkind.
  assert (id1 = id2) as ->; [|split; [done|congruence]].
  destruct Hkind as [Ht|Hd].
  - pose proof (session_is_ok _ _ _ _ Hacc Hsess) as Hs.
    pose proof (s_task _ Hs _ _ H1 Ht) as Hn1.
    pose proof (s_task _ Hs _ _ H2 ltac:(congruence)) as Hn2. congruence.
  - pose proof (session_dev_server_single _ _ Hacc Hsess _ _ H1 Hd) as Hn1.
    pose proof (session_dev_server_single _ _ Hacc Hsess _ _ H2 ltac:(congruence)) as Hn2.
    congruence.
Qed.

(** X7.  The checks for an existing ["task"] or ["dev-server:start"]
    registration read the id kept under the name as a condition, so the id 0
    counts as no registration: when that is the id kept, a further valid call
    for ["task"] is not merged and one for ["dev-server:start"] is not
    refused; either takes a new id, and no warning or error goes out. *)
Theorem registration_under_id_zero_is_not_seen cfg ev h this :
  ev = "task" ∨ ev = "dev-server:start" →
  registeredEventsByName this !! ev = Some 0%N →
  isValid (validateEvent ev h cfg) = true →
  ∃ this',
    registerChildEvent validateEvent serializeError cfg ev h this = Ok this'
    ∧ eventIdCount this' = (eventIdCount this + 1)%N
    ∧ registrations this' = (registrations this ++ [(ev, eventIdCount this)])%list
    ∧ registeredEventsById this' !! eventIdCount this = Some (mkRegistration ev h)
    ∧ (eventIdCount this ≠ 0%N →
       registeredEventsById this' !! 0%N = registeredEventsById this !! 0%N)
    ∧ ipc this' = ipc this
    ∧ warnings this' = warnings this.
Proof.
  intros Hev Hzero Hv.
  rewrite register_allocate; [|done|]. 2:{ intros _. by rewrite Hzero. }
  eexists. split; [done|]. simpl. rewrite lookup_insert_eq.
  repeat (split; [done|]). split; [|done].
  intros Hne. by rewrite lookup_insert_ne.
Qed.

End RegistryMore.

(** ** Dispatch, beyond the claims *)

Lemma own_set_keys k v ps :
  (own_set k v ps).*1 = if decide (k ∈ ps.*1) then ps.*1 else (ps.*1 ++ [k])%list.
Proof.
  induction ps as [|[k0 v0] ps IH].
  - simpl. destruct (decide (k ∈ [])) as [Hin|_]; [by apply elem_of_nil in Hin|done].
  - simpl own_set. destruct (decide (k = k0)) as [->|Hne].
    + rewrite !fmap_cons. simpl. destruct (decide (k0 ∈ k0 :: ps.*1)) as [_|Hn]; [done|].
      destruct Hn. left.
    + rewrite !fmap_cons, IH. simpl.
      destruct (decide (k ∈ ps.*1)) as [Hin|Hnin];
        destruct (decide (k ∈ k0 :: ps.*1)) as [Hin'|Hnin']; try done.
      * destruct Hnin'. by right.
      * apply elem_of_cons in Hin' as [?|?]; done.
Qed.

Lemma filter_agree {A} (P1 P2 : A → Prop)
    `{!∀ x, Decision (P1 x), !∀ x, Decision (P2 x)} (l : list A) :
  (∀ x, x ∈ l → P1 x ↔ P2 x) → filter P1 l = filter P2 l.
Proof.
  induction l as [|a l IH]; intros Hiff; [done|].
  rewrite !filter_cons, IH by (intros x Hx; apply Hiff; by right).
  destruct (decide (P1 a)) as [H1|H1], (decide (P2 a)) as [H2|H2]; try done.
  - destruct H2. apply Hiff; [left|done].
  - destruct H1. apply Hiff; [left|done].
Qed.

(** [_.extend] keeps the keys of the target in place and appends the new
    keys of the source in their order. *)
Lemma lodash_extend_key_order old new :
  NoDup new.*1 →
  lodash_keys (lodash_extend (VObj old) (VObj new))
  = (old.*1 ++ filter (λ k, k ∉ old.*1) new.*1)%list.
Proof.
  unfold lodash_keys. simpl. revert old.
  induction new as [|[k v] new IH]; intros old Hnd; simpl.
  - by rewrite app_nil_r.
  - apply NoDup_cons in Hnd as [Hk Hnd]. rewrite IH by done. simpl.
    rewrite own_set_keys, filter_cons. simpl.
    destruct (decide (k ∈ old.*1)) as [Hin|Hnin].
    + by rewrite decide_False by (by intros ?).
    + rewrite decide_True by done. rewrite <- app_assoc. simpl. do 2 f_equal.
      apply filter_agree. intros k' Hk'. rewrite elem_of_app, list_elem_of_singleton.
      split; [intros Hn ?; apply Hn; by left|].
      intros Hn [? | ->]; [done|]. by apply Hk.
Qed.

Lemma session_find_task this id r :
  session_ok this →
  registeredEventsById this !! id = Some r → event r = "task" →
  lodash_find "task" (registeredEventsById this) = Some r.
Proof.
  intros Hs Hr Hev.
  destruct (lodash_find "task" (registeredEventsById this)) as [r'|] eqn:Hfind.
  - destruct (lodash_find_Some _ _ _ Hfind) as (id' & Hr' & Hev').
    pose proof (s_task _ Hs _ _ Hr Hev) as Hn.
    pose proof (s_task _ Hs _ _ Hr' Hev') as Hn'. congruence.
  - exfalso. by apply (proj1 (lodash_find_None _ _) Hfind id r).
Qed.

Section DispatchMore.

Variable validateEvent : string → value → config → validation.
Variable serializeError : exn → value.
Variable user_call : nat → list value → settle.
Variable user_source : nat → string.
Variable devServer_wrap preprocessor_wrap browserLaunch_wrap :
  (N → list value → settle) → ids → list value → RunPlugins → result RunPlugins.

Local Abbreviation register := (registerChildEvent validateEvent serializeError).
Local Abbreviation util_wrap := (util_wrapChildPromise serializeError).
Local Abbreviation taskGetKeys' := (taskGetKeys serializeError).
Local Abbreviation taskGetBody' := (taskGetBody serializeError user_source).
Local Abbreviation execute' :=
  (execute serializeError user_call user_source
     devServer_wrap preprocessor_wrap browserLaunch_wrap).

(** X8.  In a session that holds the task mapping [old], after a further
    valid registration of the mapping [new] (each key listed once),
    [taskGetKeys] answers with a [null] error and the keys of [old] in their
    order followed by those keys of [new] that [old] did not have, in theirs.
    (Keys that spell an array index are left aside: an object lists those
    first.) *)
Theorem task_keys_are_reported_in_registration_order file this cfg id old new i :
  accepts_protocol_events validateEvent →
  session validateEvent serializeError file this →
  registeredEventsById this !! id = Some (mkRegistration "task" (VObj old)) →
  isValid (validateEvent "task" (VObj new) cfg) = true →
  NoDup new.*1 →
  (∀ k, k ∈ (old.*1 ++ new.*1)%list → array_index k = None) →
  ∃ this',
    register cfg "task" (VObj new) this = Ok this'
    ∧ taskGetKeys' i this' =
      Ok (ipc_send
            (Send ("promise:fulfilled:" ++ invocationId i)
               [VNull; VArr (VStr <$> (old.*1 ++ filter (λ k, k ∉ old.*1) new.*1)%list)])
            this').
Proof.
  intros Hacc Hsess Hr Hv Hnd _.
  pose proof (session_is_ok _ _ _ _ Hacc Hsess) as Hs.
  pose proof (s_task _ Hs _ _ Hr eq_refl) as Hname.
  assert (truthy_id (registeredEventsByName this !! "task") = Some id) as Hid.
  { apply truthy_id_Some. split; [done|]. intros ->.
    by pose proof (session_zero_name _ _ Hs Hname). }
  pose proof (register_task_merge validateEvent serializeError _ _ _ _ _ _ Hv Hid Hr) as Hreg.
  eexists. split; [exact Hreg|].
  assert (session_ok (task_merged id (VObj old) (VObj new) this)) as Hs'.
  { eapply register_session_ok; eauto. }
  unfold taskGetKeys, find_task_handler.
  rewrite (session_find_task _ id (mkRegistration "task" (lodash_extend (VObj old) (VObj new))) Hs');
    [|simpl; apply lookup_insert_eq|done].
  pose proof (lodash_extend_key_order old new Hnd) as Hkeys.
  unfold lodash_keys in Hkeys. simpl in Hkeys.
  unfold util_wrapChildPromise, lodash_keys. simpl. rewrite Hkeys. done.
Qed.

(** X9.  In a session that holds a task mapping, [taskGetBody] looks the
    name up as one key of the mapping, dots and brackets included.  For a
    name that is a key of the mapping, or that [Object.prototype] does not
    have either, it answers with a [null] error and the source text of the
    callable under that key, or the empty string when the key is missing or
    holds no callable.  (A name such as [toString] that the mapping does not
    define finds the inherited member instead.) *)
Theorem task_body_is_looked_up_by_key file this id m i name rest :
  accepts_protocol_events validateEvent →
  session validateEvent serializeError file this →
  registeredEventsById this !! id = Some (mkRegistration "task" (VObj m)) →
  settled_by_own m name →
  taskGetBody' i (VStr name :: rest) this =
  Ok (ipc_send
        (Send ("promise:fulfilled:" ++ invocationId i)
           [VNull;
            VStr match own_lookup name m with
                 | Some (VFun f) => js_string_of user_source (VFun f)
                 | _ => ""
                 end])
        this).
Proof.
  intros Hacc Hsess Hr _.
  pose proof (session_is_ok _ _ _ _ Hacc Hsess) as Hs.
  unfold taskGetBody, find_task_handler.
  rewrite (session_find_task _ id _ Hs Hr eq_refl). simpl.
  unfold util_wrapChildPromise.
  destruct (own_lookup name m) as [[]|]; done.
Qed.

(** X10.  The five run and spec events are dispatched by id alone: the
    callable registered under [ids.eventId] is called with the arguments of
    the command, whatever event it was registered for, and its outcome is
    reported; when the id has no registration, or its handler is not
    callable, the command still returns and the outcome is a serialized
    [TypeError]. *)
Theorem lifecycle_event_is_dispatched_by_id ev i args this :
  ev ∈ ["before:run"; "before:spec"; "after:run"; "after:spec"; "after:screenshot"] →
  (∀ registered f,
     registeredEventsById this !! eventId i = Some (mkRegistration registered (VFun f)) →
     execute' ev i args this = Ok (util_wrap (λ _ _, call user_call f args) i [] this))
  ∧ ((∀ registered f,
        registeredEventsById this !! eventId i ≠ Some (mkRegistration registered (VFun f))) →
     ∃ msg, execute' ev i args this =
            Ok (ipc_send (Send ("promise:fulfilled:" ++ invocationId i)
                            [serializeError (TypeError msg)]) this)).
Proof.
  intros Hev.
  assert (execute' ev i args this
          = Ok (util_wrap (invoke user_call this) i args this)) as ->.
  { unfold execute. rewrite !elem_of_cons, elem_of_nil in Hev.
    destruct Hev as [->|[->|[->|[->|[->|[]]]]]]; done. }
  unfold util_wrapChildPromise, invoke. split.
  - intros registered f ->. done.
  - intros Hno. destruct (registeredEventsById this !! eventId i) as [[e h]|]; [|eauto].
    destruct h; eauto. by destruct (Hno e f).
Qed.

(** X11.  For the two task introspection events, and for any event
    [execute] does not know, no registered handler is called: [execute]
    leaves the id counter, the registrations, both registries and the
    warnings as they are and sends at most one message, on the channel of
    its invocation; for an event it does not know it changes nothing at
    all. *)
Theorem execute_leaves_the_registry_alone ev i args this this' :
  ev ∉ ["dev-server:start"; "file:preprocessor"; "before:browser:launch";
        "before:run"; "before:spec"; "after:run"; "after:spec"; "after:screenshot";
        "task"] →
  execute serializeError user_call user_source
    devServer_wrap preprocessor_wrap browserLaunch_wrap ev i args this = Ok this' →
  eventIdCount this' = eventIdCount this
  ∧ registrations this' = registrations this
  ∧ registeredEventsById this' = registeredEventsById this
  ∧ registeredEventsByName this' = registeredEventsByName this
  ∧ warnings this' = warnings this
  ∧ (ipc this' = ipc this
     ∨ ∃ payload, ipc this' =
                  (ipc this ++ [Send ("promise:fulfilled:" ++ invocationId i) payload])%list)
  ∧ (ev ∉ ["_get:task:keys"; "_get:task:body"] → this' = this).
Proof.
  clear validateEvent. intros Hev.
  assert (∀ inv a, let s := util_wrap inv i a this in
            eventIdCount s = eventIdCount this
            ∧ registrations s = registrations this
            ∧ registeredEventsById s = registeredEventsById this
            ∧ registeredEventsByName s = registeredEventsByName this
            ∧ warnings s = warnings this
            ∧ (ipc s = ipc this
               ∨ ∃ payload, ipc s =
                  (ipc this ++ [Send ("promise:fulfilled:" ++ invocationId i) payload])%list))
    as Hwrap.
  { intros inv a. unfold util_wrapChildPromise.
    destruct (inv _ _) as [[]| |]; simpl; repeat (split; [done|]); eauto. }
  rewrite !elem_of_cons, elem_of_nil in Hev.
  unfold execute. repeat case_decide; try (exfalso; tauto).
  - exfalso. apply Hev.
    match goal with H : ev ∈ _ |- _ => revert H end.
    rewrite !elem_of_cons, !elem_of_nil. tauto.
  - unfold taskGetKeys. destruct (find_task_handler this) as [taskEvent|]; [|done].
    simpl. intros [= <-].
    destruct (Hwrap (λ _ _, Fulfilled (VArr (VStr <$> lodash_keys taskEvent))) [])
      as (?&?&?&?&?&?).
    repeat (split; [done|]). subst ev. intros Hn. destruct Hn.
    repeat constructor.
  - unfold taskGetBody. destruct (find_task_handler this) as [taskEvent|]; [|done].
    simpl. intros [= <-].
    match goal with
    | |- context [util_wrapChildPromise _ ?inv _ ?a _] =>
        destruct (Hwrap inv a) as (?&?&?&?&?&?)
    end.
    repeat (split; [done|]). subst ev. intros Hn. destruct Hn.
    repeat constructor.
  - intros [= <-]. repeat (split; [done|]). split; [by left|done].
Qed.

(** X16.  With the id of the task mapping and a task name without dots and
    brackets that is a key of the mapping, or that [Object.prototype] does
    not have either, [taskExecute] reports the outcome of the callable the
    mapping holds under that name, called with the one decoded argument; when
    the name is missing or holds no callable, it reports the marker
    [__cypress_unhandled__] with a [null] error.  (A name such as
    [constructor] that the mapping does not define reaches the inherited
    callable instead.) *)
Theorem plain_task_name_is_dispatched i name arg this m :
  registeredEventsById this !! eventId i = Some (mkRegistration "task" (VObj m)) →
  plain_name name →
  settled_by_own m name →
  taskExecute serializeError user_call user_source i [VStr name; arg] this =
  util_wrap
    (λ _ _, match own_lookup name m with
            | Some (VFun f) => call user_call f [decode_task_arg arg]
            | _ => Fulfilled (VStr "__cypress_unhandled__")
            end)
    i [] this.
Proof.
  intros Hr Hp _. unfold taskExecute, util_wrapChildPromise. simpl nth.
  by rewrite (task_invoke_plain_name _ _ _ _ _ _ _ Hr Hp).
Qed.

End DispatchMore.

(** ** Setup, beyond the claims *)


Lemma wrapNonMigratedOptions_Throw o e :
  wrapNonMigratedOptions o = Throw e →
  (∃ msg, e = TypeError msg) ∨ (∃ k, e = MIGRATED_OPTION_INVALID k).
Proof.
  unfold wrapNonMigratedOptions. simpl. intros He.
  repeat match type of He with
         | context [wrap_testingType ?k ?tt ?s] =>
             let H := fresh "Hstep" in
             destruct (wrap_testingType k tt s) eqn:H; simpl in He;
             [|injection He as <-; by eapply wrap_testingType_Throw]
         end.
  done.
Qed.

Section SetupMore.

Variable validateEvent : string → value → config → validation.
Variable serializeError : exn → value.
Variable getDefaultPreprocessor : config → value.
Variable nonNodeRequires : value.

Local Abbreviation register := (registerChildEvent validateEvent serializeError).
Local Abbreviation calls := (run_calls validateEvent serializeError).
Local Abbreviation tap := (load_tap validateEvent serializeError getDefaultPreprocessor).
Local Abbreviation chain :=
  (load_chain validateEvent serializeError getDefaultPreprocessor nonNodeRequires).
Local Abbreviation load' :=
  (load validateEvent serializeError getDefaultPreprocessor nonNodeRequires).

Lemma send_error_no_reply err this :
  no_reply this → no_reply (send_error serializeError err this).
Proof. intros Hn. apply Forall_app. split; [done|]. by repeat constructor. Qed.

Lemma register_no_reply cfg ev h this this' :
  registry_ok this → register cfg ev h this = Ok this' → no_reply this → no_reply this'.
Proof.
  intros Hok Hreg Hn.
  destruct (register_cases validateEvent serializeError cfg ev h this Hok)
    as [[_ Heq]|[(_ & _ & _ & Heq)|[(id0 & target & _ & _ & _ & _ & Heq)|(_ & _ & Heq)]]];
    rewrite Heq in Hreg; injection Hreg as <-;
    first [by apply send_error_no_reply | done].
Qed.

(** In a session the calls of the routine all return. *)
Lemma run_calls_session cfg more this :
  session_ok this →
  ∃ this', calls cfg more this = (this', None)
           ∧ session_ok this'
           ∧ requiredFile this' = requiredFile this
           ∧ registrations this `prefix_of` registrations this'
           ∧ (no_reply this → no_reply this').
Proof.
  revert this. induction more as [|[ev h] more IH]; intros this Hs.
  - exists this. done.
  - destruct (register_total validateEvent serializeError cfg ev h this (s_registry _ Hs))
      as [this1 Hreg].
    pose proof (register_session_ok _ _ _ _ _ _ _ Hs Hreg) as Hs1.
    destruct (IH this1 Hs1) as (this' & Hrun & Hs' & Hfile & Hpre & Hn).
    exists this'. simpl. rewrite Hreg. split; [done|]. split; [done|].
    assert (requiredFile this1 = requiredFile this
            ∧ registrations this `prefix_of` registrations this1) as [Hfile1 Hpre1].
    { destruct (register_cases validateEvent serializeError cfg ev h this (s_registry _ Hs))
        as [[_ Heq]|[(_ & _ & _ & Heq)|[(id0 & target & _ & _ & _ & _ & Heq)|(_ & _ & Heq)]]];
        rewrite Heq in Hreg; injection Hreg as <-; simpl; split; try done.
      by apply prefix_app_r. }
    split; [congruence|]. split; [by etrans|].
    intros Hn0. apply Hn.
    eapply register_no_reply; [apply (s_registry _ Hs)|exact Hreg|exact Hn0].
Qed.

(** The [.tap] step in a session. *)
Lemma load_tap_session cfg this :
  session_ok this →
  ∃ this', tap cfg this = Ok this'
           ∧ session_ok this'
           ∧ requiredFile this' = requiredFile this
           ∧ registrations this `prefix_of` registrations this'
           ∧ (no_reply this → no_reply this')
           ∧ (isValid (validateEvent "file:preprocessor" (getDefaultPreprocessor cfg) cfg)
              = true →
              ∃ id, ("file:preprocessor", id) ∈ registrations this').
Proof.
  intros Hs. pose proof (s_registry _ Hs) as Hok. unfold load_tap.
  destruct (truthy_id (registeredEventsByName this !! "file:preprocessor")) as [id|] eqn:Hid.
  - exists this. repeat (split; [done|]). intros _. exists id.
    apply truthy_id_Some in Hid as [Hid _].
    destruct (ok_byName _ Hok _ _ Hid) as [h Hh].
    apply list_elem_of_lookup. exists (N.to_nat id). apply (ok_listed _ Hok _ _ Hh).
  - destruct (isValid (validateEvent "file:preprocessor" (getDefaultPreprocessor cfg) cfg))
      eqn:Hv.
    + assert (register cfg "file:preprocessor" (getDefaultPreprocessor cfg) this
              = Ok (allocated "file:preprocessor" (getDefaultPreprocessor cfg) this)) as Hreg
        by (apply register_allocate; [done|intros [?|?]; done]).
      rewrite Hreg.
      exists (allocated "file:preprocessor" (getDefaultPreprocessor cfg) this).
      split; [done|].
      split; [exact (register_session_ok _ _ _ _ _ _ _ Hs Hreg)|].
      simpl. split; [done|]. split; [by apply prefix_app_r|]. split; [done|].
      intros _. exists (eventIdCount this). rewrite elem_of_app. right. left.
    + rewrite register_rejected by done.
      exists (send_error serializeError
                (rejection validateEvent cfg "file:preprocessor"
                   (getDefaultPreprocessor cfg) this) this).
      split; [done|].
      split; [by apply send_error_session_ok|]. simpl. repeat (split; [done|]).
      split; [apply send_error_no_reply|done].
Qed.

Lemma load_start_started cfg file :
  accepts_protocol_events validateEvent →
  load_start validateEvent serializeError cfg (constructor file) = Ok (started file).
Proof. intros Hacc. by rewrite load_start_registers. Qed.

Lemma started_ok file :
  accepts_protocol_events validateEvent → session_ok (started file).
Proof.
  intros Hacc. eapply (load_start_ok _ _ (Config ∅ ∅) file); [done|].
  by apply load_start_started.
Qed.

Lemma isCypressErr_wrap_error o e :
  wrapNonMigratedOptions o = Throw e → is_Some (isCypressErr e).
Proof. intros [[msg ->]|[k ->]]%wrapNonMigratedOptions_Throw; simpl; eauto. Qed.

Lemma load_catch_no_reply cfg err this :
  no_reply this → no_reply (load_catch serializeError cfg err this).
Proof.
  intros Hn. unfold load_catch.
  destruct (isCypressErr err) as [[]|]; [by apply send_error_no_reply..|done].
Qed.

(** X12.  When the guards install and the setup routine resolves with
    something falsy or with a configuration that has no offending key path,
    [load] ends by sending one reply, after which nothing is sent, and no
    message before it is a reply.  The reply
    carries what the routine resolved with and the list of registrations,
    whose ids are 0, 1, 2, ... and which starts with the two protocol events;
    and it lists a ["file:preprocessor"] registration whenever the validator
    lets the default preprocessor through. *)
Theorem successful_setup_replies_once file cfg wrapped setup modifiedCfg :
  accepts_protocol_events validateEvent →
  wrapNonMigratedOptions cfg = Ok wrapped →
  outcome setup = Resolves modifiedCfg →
  (returned_truthy modifiedCfg = true →
   ∀ path, ¬ offending (returned_config modifiedCfg) path) →
  ∃ this' errors,
    load' cfg setup (constructor file) = Ok this'
    ∧ ipc this' =
      (errors ++ [SendReply modifiedCfg (registrations this') nonNodeRequires])%list
    ∧ Forall (λ msg, is_reply msg = false) errors
    ∧ (registrations this').*2 = N.of_nat <$> seq 0 (length (registrations this'))
    ∧ [("_get:task:body", 0%N); ("_get:task:keys", 1%N)] `prefix_of` registrations this'
    ∧ (isValid (validateEvent "file:preprocessor" (getDefaultPreprocessor wrapped) wrapped)
       = true →
       ∃ id, ("file:preprocessor", id) ∈ registrations this').
Proof.
  intros Hacc Hw Hout Hvalid.
  unfold load. rewrite load_start_started by done. simpl. rewrite Hw.
  unfold load_chain.
  destruct (run_calls_session wrapped (on_calls setup) (started file) (started_ok file Hacc))
    as (this1 & Hrun & Hs1 & _ & Hpre1 & Hn1).
  rewrite Hrun, Hout.
  destruct (load_tap_session wrapped this1 Hs1) as (this2 & Htap & Hs2 & _ & Hpre2 & Hn2 & Hfp).
  rewrite Htap.
  assert (load_then nonNodeRequires modifiedCfg this2
          = Ok (ipc_send (SendReply modifiedCfg (registrations this2) nonNodeRequires) this2))
    as ->.
  { unfold load_then. destruct (returned_truthy modifiedCfg); [|done].
    destruct (validateNonMigratedOptions_cases (returned_config modifiedCfg))
      as [[-> _]|(path & _ & Hoff)]; [done|].
    by destruct (Hvalid eq_refl path). }
  eexists _, (ipc this2). split; [done|]. simpl. split; [done|].
  split; [apply Hn2, Hn1; by constructor|].
  split; [apply (ok_ids _ (s_registry _ Hs2))|].
  split; [by etrans|done].
Qed.

(** X13.  When the setup routine does not resolve, or resolves with a
    configuration that has an offending key path, [load] sends no reply at
    all, whether the guards installed or not; in the second case its last
    message is the [MIGRATED_OPTION_INVALID] error for an offending path,
    sent as it is. *)
Theorem failed_setup_never_replies file cfg setup :
  accepts_protocol_events validateEvent →
  (∀ modifiedCfg, outcome setup = Resolves modifiedCfg →
     returned_truthy modifiedCfg = true
     ∧ ∃ path, offending (returned_config modifiedCfg) path) →
  ∃ this',
    load' cfg setup (constructor file) = Ok this'
    ∧ no_reply this'
    ∧ ∀ wrapped modifiedCfg,
        wrapNonMigratedOptions cfg = Ok wrapped → outcome setup = Resolves modifiedCfg →
        ∃ errors path,
          ipc this' =
          (errors ++ [setup_error (serializeError (MIGRATED_OPTION_INVALID path))])%list
          ∧ offending (returned_config modifiedCfg) path.
Proof.
  intros Hacc Hfail.
  unfold load. rewrite load_start_started by done. simpl.
  assert (no_reply (started file)) as Hn0 by constructor.
  destruct (wrapNonMigratedOptions cfg) as [wrapped|e] eqn:Hw.
  2:{ eexists. split; [done|]. split; [by apply load_catch_no_reply|]. done. }
  unfold load_chain.
  destruct (run_calls_session wrapped (on_calls setup) (started file) (started_ok file Hacc))
    as (this1 & Hrun & Hs1 & _ & _ & Hn1).
  rewrite Hrun. destruct (outcome setup) as [modifiedCfg| |] eqn:Hout.
  - destruct (Hfail modifiedCfg eq_refl) as [Htruthy [path0 Hoff0]].
    destruct (load_tap_session wrapped this1 Hs1) as (this2 & Htap & _ & _ & _ & Hn2 & _).
    rewrite Htap. unfold load_then. rewrite Htruthy.
    destruct (validateNonMigratedOptions_cases (returned_config modifiedCfg))
      as [[_ Hnone]|(path & -> & Hoff)]; [by destruct (Hnone path0)|].
    simpl. eexists. split; [done|].
    split; [apply send_error_no_reply; auto|].
    intros wrapped' m' _ [= <-]. exists (ipc this2), path. done.
  - eexists. split; [done|]. split; [apply load_catch_no_reply; auto|]. done.
  - eexists. split; [done|]. split; [auto|]. done.
Qed.


(** X15.  When the guards cannot be installed, the setup routine is not
    run: [load] has registered the two protocol events and nothing else, and
    its one message is the error, a [TypeError] sent inside
    [CONFIG_FILE_SETUP_NODE_EVENTS_ERROR] or a [MIGRATED_OPTION_INVALID] sent
    as it is. *)
Theorem setup_is_not_run_without_guards file cfg setup err :
  accepts_protocol_events validateEvent →
  wrapNonMigratedOptions cfg = Throw err →
  ∃ this' reported,
    load' cfg setup (constructor file) = Ok this'
    ∧ registrations this' = [("_get:task:body", 0%N); ("_get:task:keys", 1%N)]
    ∧ ipc this' = [setup_error (serializeError reported)]
    ∧ ((∃ msg, err = TypeError msg)
       ∧ reported = CONFIG_FILE_SETUP_NODE_EVENTS_ERROR file
                      (g_value (config_get cfg "testingType")) err
       ∨ (∃ k, err = MIGRATED_OPTION_INVALID k) ∧ reported = err).
Proof.
  intros Hacc Hw.
  unfold load. rewrite load_start_started by done. simpl. rewrite Hw.
  destruct (wrapNonMigratedOptions_Throw _ _ Hw) as [[msg ->]|[k ->]].
  - eexists _, _. split; [done|]. simpl. repeat (split; [done|]). left. eauto.
  - eexists _, _. split; [done|]. simpl. repeat (split; [done|]). right. eauto.
Qed.

End SetupMore.

(** ** The further facts on the examples *)

Lemma guarded_configuration_reads_undefined_and_validates_witness :
  g_value (config_get example_legacy_config "baseUrl") = VStr "http://localhost:3000"
  ∧ ∃ wrapped,
      wrapNonMigratedOptions example_legacy_config = Ok wrapped
      ∧ config_get wrapped "baseUrl" = plain VUndefined
      ∧ guarded_get (config_get wrapped "e2e") "pluginsFile" = VUndefined
      ∧ validateNonMigratedOptions wrapped = Ok wrapped.
Proof.
  split; [reflexivity|].
  destruct (wrapNonMigratedOptions example_legacy_config) as [wrapped|] eqn:Hw;
    [|vm_compute in Hw; discriminate Hw].
  exists wrapped. split; [reflexivity|].
  destruct (guarded_configuration_reads_undefined_and_validates
              example_legacy_config wrapped wrapped Hw (after_none wrapped))
    as (Htop & Hin & Hvalid).
  split; [apply Htop; compute_done|].
  split; [apply Hin; compute_done | exact Hvalid].
Defined.

Lemma guards_install_exactly_when_ready_witness :
  (∃ wrapped, wrapNonMigratedOptions example_legacy_config = Ok wrapped)
  ∧ ∃ msg, wrapNonMigratedOptions example_broken_config = Throw (TypeError msg).
Proof.
  split.
  - apply (guards_install_exactly_when_ready example_legacy_config).
    + split; [reflexivity|]. intros k sub Hk.
      unfold example_legacy_config in Hk. simpl in Hk.
      apply lookup_fmap_Some in Hk as (v & <- & _). reflexivity.
    + intros tt Htt. unfold testingTypes in Htt.
      rewrite !elem_of_cons, elem_of_nil in Htt.
      destruct Htt as [->|[->|[]]]; [left|right]; reflexivity.
  - destruct (guards_install_exactly_when_ready example_broken_config) as [Hiff Hthrow].
    + split; [reflexivity|]. intros k sub Hk.
      unfold example_broken_config in Hk. simpl in Hk.
      apply lookup_fmap_Some in Hk as (v & <- & _). reflexivity.
    + destruct (wrapNonMigratedOptions example_broken_config) as [wrapped|e] eqn:Hw.
      * destruct Hiff as [Hready _].
        destruct (Hready (ex_intro _ wrapped eq_refl) "component") as [Hf|Ho];
          [repeat constructor | discriminate Hf | discriminate Ho].
      * destruct (Hthrow e eq_refl) as [msg ->]. exists msg. reflexivity.
Defined.

Lemma replaced_testing_type_object_is_unguarded_witness :
  ∃ wrapped s,
    wrapNonMigratedOptions example_config = Ok wrapped
    ∧ config_assign_in wrapped "e2e" "pluginsFile" (VStr "cypress/plugins/index.js")
      = Throw (MIGRATED_OPTION_INVALID "e2e.pluginsFile")
    ∧ config_assign wrapped "e2e"
        (plain (VObj [("pluginsFile", VStr "cypress/plugins/index.js")])) = Ok s
    ∧ ∃ path, validateNonMigratedOptions s = Throw (MIGRATED_OPTION_INVALID path).
Proof.
  destruct (wrapNonMigratedOptions example_config) as [wrapped|] eqn:Hw;
    [|vm_compute in Hw; discriminate Hw].
  destruct (replaced_testing_type_object_is_unguarded example_config wrapped
              "e2e" "pluginsFile" [("pluginsFile", VStr "cypress/plugins/index.js")] Hw)
    as (s & Hassign & _ & Hvalidate); [compute_done|compute_done|].
  exists wrapped, s. split; [reflexivity|]. split.
  - destruct (wrapNonMigratedOptions_trapped_in _ _ "e2e" "pluginsFile" Hw)
      as (Hfree & sub & Hsub & _ & Htrap); [compute_done|compute_done|].
    unfold config_assign_in, config_get, guarded_assign. rewrite Hfree, Hsub. simpl.
    rewrite Htrap. reflexivity.
  - split; [exact Hassign|].
    destruct (Hvalidate eq_refl) as (path & Hthrow & _). exists path. exact Hthrow.
Defined.

Lemma registrations_are_never_dropped_witness :
  ∃ this' r',
    run_calls example_validateEvent example_serializeError example_config
      [("task", VObj [("ping", VFun (UserFn 6))]); ("no:such:event", VNull);
       ("after:run", VFun (UserFn 7))]
      example_task_session = (this', None)
    ∧ registeredEventsById this' !! 2%N = Some r'
    ∧ event r' = "task"
    ∧ "db.seed" ∈ lodash_keys (handler r')
    ∧ registrations example_task_session `prefix_of` registrations this'.
Proof.
  destruct (registrations_are_never_dropped example_validateEvent example_serializeError
              "cypress.config.js" example_task_session example_config
              [("task", VObj [("ping", VFun (UserFn 6))]); ("no:such:event", VNull);
               ("after:run", VFun (UserFn 7))]
              2%N (mkRegistration "task" (VObj example_tasks))
              (session_reachable _ _ _ _ example_task_session_is_session) eq_refl)
    as (this' & r' & Hrun & _ & Hr' & Hev & _ & Hkeys & Hpre).
  exists this', r'. split; [exact Hrun|]. split; [exact Hr'|]. split; [exact Hev|].
  split; [apply Hkeys; compute_done | exact Hpre].
Defined.

Lemma registered_handler_is_invoked_witness :
  ∃ this',
    run_calls example_validateEvent example_serializeError example_config
      [("before:run", VFun (UserFn 3)); ("before:run", VFun (UserFn 4));
       ("task", VObj [("ping", VFun (UserFn 6))])]
      example_task_session = (this', None)
    ∧ ("before:run", 4%N) ∈ registrations this'
    ∧ invoke example_user_call this' 4 [VStr "spec.cy.js"]
      = Fulfilled (VArr [VNum 3; VStr "spec.cy.js"]).
Proof.
  destruct (registered_handler_is_invoked example_validateEvent example_serializeError
              example_user_call "cypress.config.js" example_task_session example_config
              "before:run" (UserFn 3)
              [("before:run", VFun (UserFn 4)); ("task", VObj [("ping", VFun (UserFn 6))])]
              (session_reachable _ _ _ _ example_task_session_is_session))
    as (this' & Hrun & Hin & Hinvoke).
  - reflexivity.
  - discriminate.
  - discriminate.
  - exists this'. split; [exact Hrun|]. split; [exact Hin|]. apply Hinvoke.
Defined.

Lemma one_task_and_one_dev_server_witness :
  map_Forall (λ id r, event r = "dev-server:start" → id = 3%N)
    (registeredEventsById example_task_session).
Proof.
  apply map_Forall_lookup. intros id r Hr Hev.
  destruct (one_task_and_one_dev_server example_validateEvent example_serializeError
              "cypress.config.js" example_task_session id 3%N r
              (mkRegistration "dev-server:start" (VFun (UserFn 2)))
              example_accepts_protocol_events example_task_session_is_session Hr eq_refl)
    as [Hid _]; [exact Hev | right; exact Hev | exact Hid].
Defined.

Lemma registration_under_id_zero_is_not_seen_witness :
  let first := allocated "task" (VObj example_tasks) (constructor "cypress.config.js") in
  registeredEventsByName first !! "task" = Some 0%N
  ∧ ∃ this',
      registerChildEvent example_validateEvent example_serializeError example_config
        "task" (VObj [("log", VFun (UserFn 5))]) first = Ok this'
      ∧ registrations this' = [("task", 0%N); ("task", 1%N)]
      ∧ warnings this' = [].
Proof.
  intros first. split; [reflexivity|].
  destruct (registration_under_id_zero_is_not_seen example_validateEvent
              example_serializeError example_config "task"
              (VObj [("log", VFun (UserFn 5))]) first)
    as (this' & Hreg & _ & Hregs & _ & _ & _ & Hwarn).
  - left. reflexivity.
  - reflexivity.
  - reflexivity.
  - exists this'. split; [exact Hreg|]. split; [exact Hregs | exact Hwarn].
Defined.

Lemma task_keys_are_reported_in_registration_order_witness :
  ∃ this',
    registerChildEvent example_validateEvent example_serializeError example_config
      "task" (VObj [("ping", VFun (UserFn 6)); ("log", VFun (UserFn 5))])
      example_task_session = Ok this'
    ∧ taskGetKeys example_serializeError (mkIds 1 "inv-4") this' =
      Ok (ipc_send
            (Send "promise:fulfilled:inv-4"
               [VNull; VArr [VStr "log"; VStr "db.seed"; VStr "ping"]])
            this').
Proof.
  destruct (task_keys_are_reported_in_registration_order example_validateEvent
              example_serializeError "cypress.config.js" example_task_session
              example_config 2%N example_tasks
              [("ping", VFun (UserFn 6)); ("log", VFun (UserFn 5))] (mkIds 1 "inv-4")
              example_accepts_protocol_events example_task_session_is_session)
    as (this' & Hreg & Hkeys).
  - reflexivity.
  - reflexivity.
  - compute_done.
  - intros k Hk. simpl in Hk. rewrite !elem_of_cons, elem_of_nil in Hk.
    destruct Hk as [->|[->|[->|[->|[]]]]]; reflexivity.
  - exists this'. split; [exact Hreg | exact Hkeys].
Defined.

Lemma task_body_is_looked_up_by_key_witness :
  taskGetBody example_serializeError example_user_source (mkIds 0 "inv-8")
    [VStr "db.seed"] example_task_session
  = Ok (ipc_send (Send "promise:fulfilled:inv-8" [VNull; VStr "function f1() {}"])
          example_task_session)
  ∧ taskGetBody example_serializeError example_user_source (mkIds 0 "inv-8")
      [VStr "db"] example_task_session
    = Ok (ipc_send (Send "promise:fulfilled:inv-8" [VNull; VStr ""]) example_task_session).
Proof.
  split.
  - apply (task_body_is_looked_up_by_key example_validateEvent example_serializeError
             example_user_source "cypress.config.js" example_task_session 2%N example_tasks
             (mkIds 0 "inv-8") "db.seed" []
             example_accepts_protocol_events example_task_session_is_session eq_refl).
    left. eexists. reflexivity.
  - apply (task_body_is_looked_up_by_key example_validateEvent example_serializeError
             example_user_source "cypress.config.js" example_task_session 2%N example_tasks
             (mkIds 0 "inv-8") "db" []
             example_accepts_protocol_events example_task_session_is_session eq_refl).
    right. compute_done.
Defined.

Lemma lifecycle_event_is_dispatched_by_id_witness :
  let execute' :=
    execute example_serializeError example_user_call example_user_source
      (λ _ _ _ this, Ok this) (λ _ _ _ this, Ok this) (λ _ _ _ this, Ok this) in
  execute' "before:run" (mkIds 3 "inv-5") [VNum 1] example_task_session
  = Ok (ipc_send (Send "promise:fulfilled:inv-5" [VNull; VArr [VNum 2; VNum 1]])
          example_task_session)
  ∧ ∃ msg,
      execute' "after:spec" (mkIds 9 "inv-6") [] example_task_session
      = Ok (ipc_send (Send "promise:fulfilled:inv-6"
                        [example_serializeError (TypeError msg)]) example_task_session).
Proof.
  intros execute'. subst execute'. split.
  - destruct (lifecycle_event_is_dispatched_by_id example_serializeError example_user_call
                example_user_source
                (λ _ _ _ this, Ok this) (λ _ _ _ this, Ok this) (λ _ _ _ this, Ok this)
                "before:run" (mkIds 3 "inv-5") [VNum 1] example_task_session)
      as [Hcalled _]; [compute_done|].
    apply (Hcalled "dev-server:start" (UserFn 2)). reflexivity.
  - destruct (lifecycle_event_is_dispatched_by_id example_serializeError example_user_call
                example_user_source
                (λ _ _ _ this, Ok this) (λ _ _ _ this, Ok this) (λ _ _ _ this, Ok this)
                "after:spec" (mkIds 9 "inv-6") [] example_task_session)
      as [_ Hmissing]; [compute_done|].
    apply Hmissing. intros registered f Hr. discriminate Hr.
Defined.

Lemma execute_leaves_the_registry_alone_witness :
  let execute' :=
    execute example_serializeError example_user_call example_user_source
      (λ _ _ _ this, Ok this) (λ _ _ _ this, Ok this) (λ _ _ _ this, Ok this) in
  (∃ this',
     execute' "_get:task:keys" (mkIds 1 "inv-7") [] example_task_session = Ok this'
     ∧ registeredEventsById this' = registeredEventsById example_task_session
     ∧ registrations this' = registrations example_task_session
     ∧ eventIdCount this' = 4%N)
  ∧ execute' "after:everything" (mkIds 3 "inv-8") [VNum 1] example_task_session
    = Ok example_task_session.
Proof.
  intros execute'. subst execute'. split.
  - destruct (execute example_serializeError example_user_call example_user_source
                (λ _ _ _ this, Ok this) (λ _ _ _ this, Ok this) (λ _ _ _ this, Ok this)
                "_get:task:keys" (mkIds 1 "inv-7") [] example_task_session)
      as [this'|] eqn:Hexec; [|vm_compute in Hexec; discriminate Hexec].
    exists this'. split; [reflexivity|].
    destruct (execute_leaves_the_registry_alone example_serializeError example_user_call
                example_user_source
                (λ _ _ _ this, Ok this) (λ _ _ _ this, Ok this) (λ _ _ _ this, Ok this)
                "_get:task:keys" (mkIds 1 "inv-7") [] example_task_session this')
      as (Hcount & Hregs & HbyId & _).
    + compute_done.
    + exact Hexec.
    + split; [exact HbyId|]. split; [exact Hregs | exact Hcount].
  - destruct (execute example_serializeError example_user_call example_user_source
                (λ _ _ _ this, Ok this) (λ _ _ _ this, Ok this) (λ _ _ _ this, Ok this)
                "after:everything" (mkIds 3 "inv-8") [VNum 1] example_task_session)
      as [this'|] eqn:Hexec; [|vm_compute in Hexec; discriminate Hexec].
    destruct (execute_leaves_the_registry_alone example_serializeError example_user_call
                example_user_source
                (λ _ _ _ this, Ok this) (λ _ _ _ this, Ok this) (λ _ _ _ this, Ok this)
                "after:everything" (mkIds 3 "inv-8") [VNum 1] example_task_session this')
      as (_ & _ & _ & _ & _ & _ & Hsame).
    + compute_done.
    + exact Hexec.
    + rewrite Hsame; [reflexivity | compute_done].
Defined.

Lemma plain_task_name_is_dispatched_witness :
  ipc (taskExecute example_serializeError example_user_call example_user_source
         (mkIds 2 "inv-7") [VStr "log"; VNum 5] example_task_session)
  = [Send "promise:fulfilled:inv-7" [VNull; VArr [VNum 0; VNum 5]]]
  ∧ ipc (taskExecute example_serializeError example_user_call example_user_source
           (mkIds 2 "inv-7") [VStr "ping"; VNum 5] example_task_session)
    = [Send "promise:fulfilled:inv-7" [VNull; VStr "__cypress_unhandled__"]].
Proof.
  split.
  - rewrite (plain_task_name_is_dispatched example_serializeError example_user_call
               example_user_source (mkIds 2 "inv-7") "log" (VNum 5)
               example_task_session example_tasks eq_refl); [reflexivity| |].
    + intros c Hc. simpl in Hc. rewrite !elem_of_cons, elem_of_nil in Hc.
      destruct Hc as [->|[->|[->|[]]]]; repeat split; discriminate.
    + left. eexists. reflexivity.
  - rewrite (plain_task_name_is_dispatched example_serializeError example_user_call
               example_user_source (mkIds 2 "inv-7") "ping" (VNum 5)
               example_task_session example_tasks eq_refl); [reflexivity| |].
    + intros c Hc. simpl in Hc. rewrite !elem_of_cons, elem_of_nil in Hc.
      destruct Hc as [->|[->|[->|[->|[]]]]]; repeat split; discriminate.
    + right. compute_done.
Defined.

Lemma successful_setup_replies_once_witness :
  ∃ this' errors,
    load example_validateEvent example_serializeError (λ _, VFun Noop) VNull
      example_legacy_config
      (mkSetup [("before:everything", VFun (UserFn 4)); ("task", VObj example_tasks)]
         (Resolves (ReturnedValue (VObj [("video", VBool false)]))))
      (constructor "cypress.config.js") = Ok this'
    ∧ ipc this' =
      (errors ++ [SendReply (ReturnedValue (VObj [("video", VBool false)]))
                    (registrations this') VNull])%list
    ∧ Forall (λ msg, is_reply msg = false) errors
    ∧ ∃ id, ("file:preprocessor", id) ∈ registrations this'.
Proof.
  destruct (wrapNonMigratedOptions example_legacy_config) as [wrapped|] eqn:Hw;
    [|vm_compute in Hw; discriminate Hw].
  destruct (successful_setup_replies_once example_validateEvent example_serializeError
              (λ _, VFun Noop) VNull "cypress.config.js" example_legacy_config wrapped
              (mkSetup [("before:everything", VFun (UserFn 4)); ("task", VObj example_tasks)]
                 (Resolves (ReturnedValue (VObj [("video", VBool false)]))))
              (ReturnedValue (VObj [("video", VBool false)]))
              example_accepts_protocol_events Hw eq_refl)
    as (this' & errors & Hload & Hipc & Herrors & _ & _ & Hfp).
  - intros _.
    destruct (validateNonMigratedOptions_cases
                (returned_config (ReturnedValue (VObj [("video", VBool false)]))))
      as [[_ Hnone]|(path & Hthrow & _)]; [exact Hnone|].
    vm_compute in Hthrow. discriminate Hthrow.
  - exists this', errors. split; [exact Hload|]. split; [exact Hipc|].
    split; [exact Herrors|]. apply Hfp. reflexivity.
Defined.

Lemma failed_setup_never_replies_witness :
  ∃ this' errors path,
    load example_validateEvent example_serializeError (λ _, VFun Noop) VNull
      example_config
      (mkSetup [("task", VObj example_tasks)]
         (Resolves (ReturnedValue (VObj [("baseUrl", VStr "http://localhost:3000")]))))
      (constructor "cypress.config.js") = Ok this'
    ∧ no_reply this'
    ∧ ipc this' =
      (errors ++ [setup_error (example_serializeError (MIGRATED_OPTION_INVALID path))])%list.
Proof.
  destruct (wrapNonMigratedOptions example_config) as [wrapped|] eqn:Hw;
    [|vm_compute in Hw; discriminate Hw].
  destruct (failed_setup_never_replies example_validateEvent example_serializeError
              (λ _, VFun Noop) VNull "cypress.config.js" example_config
              (mkSetup [("task", VObj example_tasks)]
                 (Resolves (ReturnedValue
                              (VObj [("baseUrl", VStr "http://localhost:3000")]))))
              example_accepts_protocol_events)
    as (this' & Hload & Hno & Hlast).
  - intros modifiedCfg [= <-]. split; [reflexivity|]. exists "baseUrl". left.
    split; [compute_done|reflexivity].
  - destruct (Hlast wrapped _ Hw eq_refl) as (errors & path & Hipc & _).
    exists this', errors, path. split; [exact Hload|]. split; [exact Hno | exact Hipc].
Defined.


Lemma setup_is_not_run_without_guards_witness :
  (∃ msg, wrapNonMigratedOptions example_broken_config = Throw (TypeError msg))
  ∧ ∃ this' reported,
      load example_validateEvent example_serializeError (λ _, VFun Noop) VNull
        example_broken_config
        (mkSetup [("task", VObj example_tasks)] (Resolves (ReturnedValue VUndefined)))
        (constructor "cypress.config.js") = Ok this'
      ∧ registrations this' = [("_get:task:body", 0%N); ("_get:task:keys", 1%N)]
      ∧ ipc this' = [setup_error (example_serializeError reported)].
Proof.
  split; [eexists; vm_compute; reflexivity|].
  destruct (setup_is_not_run_without_guards example_validateEvent example_serializeError
              (λ _, VFun Noop) VNull "cypress.config.js" example_broken_config
              (mkSetup [("task", VObj example_tasks)] (Resolves (ReturnedValue VUndefined)))
              (TypeError "Object.defineProperty called on non-object")
              example_accepts_protocol_events)
    as (this' & reported & Hload & Hregs & Hipc & _).
  - vm_compute. reflexivity.
  - exists this', reported. split; [exact Hload|]. split; [exact Hregs | exact Hipc].
Defined.
